(** * misc::repeater: the wait / wake / decide protocol

    A shallow embedding of [src/misc/repeater.h].  The header declares a
    handle class [misc::repeater] and a functor class
    [misc::details::repeater_functor] that is run by a [std::thread].  Both
    hold [std::shared_ptr]s to the same two [std::atomic_bool]s and to the
    same [std::condition_variable].

    - The objects created by [std::make_shared] live in a [heap]; the
      pointers kept by the handle and by the functor are locations of it.
    - The owning thread acts through [interrupt], [stop] and the destructor;
      each is a short sequence of atomic statements ([owner_stmt]).
    - The worker thread is [details.step], one transition per atomic
      access of [repeater_functor::operator()]; the result of every blocking
      wait ([cv_status]) is chosen by the environment.
    - An execution is a schedule ([run]): an arbitrary interleaving of the
      statements of the owner with the transitions of the worker.

    Time is not represented: a wait may time out at any moment, so every
    property below holds for every interval and every timing. *)

From stdpp Require Import base option list gmap fin_maps.
From Stdlib Require Import ZArith Lia.

(** ** Heap objects *)

Abbreviation loc := positive.

(** The objects behind the shared pointers.  An atomic boolean is its
    current value.  Of a condition variable only the number of
    [notify_one] calls it received is recorded: whether a waiting thread
    wakes is decided by the environment, since a wake may be spurious and
    a notification may arrive while nobody waits. *)
Record heap : Type := Heap {
  atomic_bools : gmap positive bool;
  condition_variables : gmap positive nat;
}.

Definition make_shared_atomic_bool (v : bool) (h : heap) : loc * heap :=
  let p := fresh (dom (atomic_bools h)) in
  (p, Heap (<[p := v]> (atomic_bools h)) (condition_variables h)).

Definition make_shared_condition_variable (h : heap) : loc * heap :=
  let p := fresh (dom (condition_variables h)) in
  (p, Heap (atomic_bools h) (<[p := 0]> (condition_variables h))).

(** [p->load()] *)
Definition load (p : loc) (h : heap) : option bool := atomic_bools h !! p.

(** [p->store(v)] *)
Definition store (p : loc) (v : bool) (h : heap) : heap :=
  Heap (<[p := v]> (atomic_bools h)) (condition_variables h).

(** [p->notify_one()] *)
Definition notify_one (p : loc) (h : heap) : heap :=
  Heap (atomic_bools h) (alter S p (condition_variables h)).

Definition notifications (p : loc) (h : heap) : option nat :=
  condition_variables h !! p.

(** ** The handle: [class repeater] *)

(** The member [std::thread t] is represented by what the handle can
    observe of it, [joinable()]; the thread itself is the [worker] of the
    [world] below. *)
Record repeater : Type := Repeater {
  is_running_ptr : loc;
  is_interrupted_ptr : loc;
  cv_ptr : loc;
  t_joinable : bool;
}.

(** [std::cv_status], the result of one blocking wait on the condition
    variable: the interval has elapsed, or the thread woke before that
    (notified or spuriously). *)
Inductive cv_status : Type := timeout | no_timeout.

Global Instance cv_status_eq_dec : EqDecision cv_status.
Proof. solve_decision. Defined.

(** ** The functor: [details::repeater_functor] *)

Module details.

(** The callback [fn] is opaque: it acts on the state [U] it captured
    (the [count] of the unit tests) and on nothing else. *)
Record repeater_functor (U : Type) : Type := RepeaterFunctor {
  is_running_ptr : loc;
  is_interrupted_ptr : loc;
  cv_ptr : loc;
  interval : Z;
  execute_if_interrupted : bool;
  fn : U → U;
}.
Arguments RepeaterFunctor {U}.
Arguments is_running_ptr {U}.
Arguments is_interrupted_ptr {U}.
Arguments cv_ptr {U}.
Arguments interval {U}.
Arguments execute_if_interrupted {U}.
Arguments fn {U}.

(** Program points of [operator()].  [wait_for(lock, interval, pred)] is
    the loop of the C++ standard,
    [while (!pred()) if (wait_until(lock, t) == cv_status::timeout) return pred(); return true;]
    and takes the three [Wait] points.  The local [std::mutex m] is
    locked by this thread only and has no transition of its own. *)
Inductive pc : Type :=
| LoopTop                          (* line 104: the [while] condition *)
| WaitPred                         (* line 108: [wait_for] evaluates the predicate *)
| WaitBlocked                      (* line 108: blocked on the condition variable *)
| WaitTimedOut                     (* line 108: the interval elapsed, the predicate is read once more *)
| Woken (is_interrupted : bool)    (* line 113: [wait_for] has returned [is_interrupted] *)
| Decide (is_interrupted : bool)   (* line 116 *)
| Reset                            (* line 122 *)
| Returned.                        (* line 125: [operator()] has returned *)

Global Instance pc_eq_dec : EqDecision pc.
Proof. solve_decision. Defined.

(** The state of the thread that runs the functor: the functor object it
    owns, its program point, the state captured by the callback, and the
    number of times [fn()] has been invoked so far. *)
Record thread (U : Type) : Type := Thread {
  self : repeater_functor U;
  at_pc : pc;
  captured : U;
  calls : nat;
}.
Arguments Thread {U}.
Arguments self {U}.
Arguments at_pc {U}.
Arguments captured {U}.
Arguments calls {U}.

Section Worker.
Context {U : Type}.

Definition goto (l : pc) (t : thread U) : thread U :=
  Thread (self t) l (captured t) (calls t).

(** line 118: [fn();] *)
Definition invoke (t : thread U) : thread U :=
  Thread (self t) (at_pc t) (fn (self t) (captured t)) (S (calls t)).

(** One transition of [operator()].  [k] is what the blocking wait
    returns if the thread is blocked; it is ignored elsewhere.  [None]
    is an access through a pointer that owns no object. *)
Definition step (k : cv_status) (t : thread U) (h : heap)
  : option (thread U * heap) :=
  let f := self t in
  match at_pc t with
  | LoopTop =>
      r ← load (is_running_ptr f) h;
      Some (goto (if r : bool then WaitPred else Returned) t, h)
  | WaitPred =>
      i ← load (is_interrupted_ptr f) h;
      Some (goto (if i : bool then Woken true else WaitBlocked) t, h)
  | WaitBlocked =>
      _ ← notifications (cv_ptr f) h;
      Some (goto (match k with
                  | timeout => WaitTimedOut
                  | no_timeout => WaitPred
                  end) t, h)
  | WaitTimedOut =>
      i ← load (is_interrupted_ptr f) h;
      Some (goto (Woken i) t, h)
  | Woken is_interrupted =>
      r ← load (is_running_ptr f) h;
      Some (goto (if r : bool then Decide is_interrupted else LoopTop) t, h)
  | Decide is_interrupted =>
      Some (goto Reset
              (if negb is_interrupted || execute_if_interrupted f
               then invoke t else t), h)
  | Reset =>
      Some (goto LoopTop t, store (is_interrupted_ptr f) false h)
  | Returned => Some (t, h)
  end.

End Worker.

End details.

(** ** The whole system *)

Record world (U : Type) : Type := World {
  mem : heap;
  handle : repeater;
  worker : details.thread U;
}.
Arguments World {U}.
Arguments mem {U}.
Arguments handle {U}.
Arguments worker {U}.

(** [std::system_error], with its error condition. *)
Inductive exception : Type := system_error (errc : nat).

(** How a call of the owning thread ends.  [Pending]: the call is still
    blocked when the worker has made all the transitions it was given.
    [Terminated]: [std::terminate] was called and the program is gone. *)
Inductive completion (A : Type) : Type :=
| Returns (a : A)
| Throws (e : exception)
| Pending
| Terminated.
Arguments Returns {A}.
Arguments Throws {A}.
Arguments Pending {A}.
Arguments Terminated {A}.

Section Repeater.
Context {U : Type}.
Implicit Types (w : world U) (h : heap) (r : repeater).

(** lines 128-145: the constructor.  The three [make_shared] calls run in
    the order of the member declarations, then the thread is started on
    a functor that copies the three pointers; the new thread has not
    executed anything yet. *)
Definition construct (interval : Z) (execute_if_interrupted : bool)
    (fn : U → U) (captured : U) (h : heap) : world U :=
  let '(run_p, h1) := make_shared_atomic_bool true h in
  let '(int_p, h2) := make_shared_atomic_bool false h1 in
  let '(cv_p, h3) := make_shared_condition_variable h2 in
  let f := details.RepeaterFunctor run_p int_p cv_p
             interval execute_if_interrupted fn in
  World h3 (Repeater run_p int_p cv_p true)
    (details.Thread f details.LoopTop captured 0).

(** lines 164-168 *)
Definition interrupt (w : world U) : world U :=
  let h1 := store (is_interrupted_ptr (handle w)) true (mem w) in
  let h2 := notify_one (cv_ptr (handle w)) h1 in
  World h2 (handle w) (worker w).

(** lines 170-175 *)
Definition stop (w : world U) : world U :=
  let h1 := store (is_running_ptr (handle w)) false (mem w) in
  let h2 := store (is_interrupted_ptr (handle w)) true h1 in
  let h3 := notify_one (cv_ptr (handle w)) h2 in
  World h3 (handle w) (worker w).

(** What the two parties read. *)
Definition RunningFlag (w : world U) : option bool :=
  load (is_running_ptr (handle w)) (mem w).
Definition InterruptFlag (w : world U) : option bool :=
  load (is_interrupted_ptr (handle w)) (mem w).
Definition WakeSignal (w : world U) : option nat :=
  notifications (cv_ptr (handle w)) (mem w).

(** ** Executions *)

(** The atomic statements the owning thread can execute on the shared
    objects: there are no others in [interrupt], [stop] and the
    destructor. *)
Inductive owner_stmt : Type :=
| store_running_false       (* line 172 *)
| store_interrupted_true    (* lines 166 and 173 *)
| notify.                   (* lines 167 and 174 *)

Global Instance owner_stmt_eq_dec : EqDecision owner_stmt.
Proof. solve_decision. Defined.

Definition owner_step (s : owner_stmt) (w : world U) : world U :=
  let r := handle w in
  World
    match s with
    | store_running_false => store (is_running_ptr r) false (mem w)
    | store_interrupted_true => store (is_interrupted_ptr r) true (mem w)
    | notify => notify_one (cv_ptr r) (mem w)
    end r (worker w).

Definition interrupt_body : list owner_stmt :=
  [store_interrupted_true; notify].
Definition stop_body : list owner_stmt :=
  [store_running_false; store_interrupted_true; notify].

Definition worker_step (k : cv_status) (w : world U) : option (world U) :=
  '(t, h) ← details.step k (worker w) (mem w);
  Some (World h (handle w) t).

(** One entry of a schedule: the owner executes its next statement, or the
    worker makes a transition. *)
Inductive action : Type :=
| Owner (s : owner_stmt)
| Work (k : cv_status).

Global Instance action_eq_dec : EqDecision action.
Proof. solve_decision. Defined.

Definition exec (a : action) (w : world U) : option (world U) :=
  match a with
  | Owner s => Some (owner_step s w)
  | Work k => worker_step k w
  end.

Fixpoint run (sched : list action) (w : world U) : option (world U) :=
  match sched with
  | [] => Some w
  | a :: sched' => w' ← exec a w; run sched' w'
  end.

(** The worlds visited by a schedule, the first one included. *)
Fixpoint visited (sched : list action) (w : world U) : list (world U) :=
  w :: match sched with
       | [] => []
       | a :: sched' =>
           match exec a w with
           | Some w' => visited sched' w'
           | None => []
           end
       end.

Definition pc_of (w : world U) : details.pc := details.at_pc (worker w).
Definition calls_of (w : world U) : nat := details.calls (worker w).
Definition functor_of (w : world U) : details.repeater_functor U :=
  details.self (worker w).

(** What the constructor establishes and every statement keeps: the functor
    holds the pointers of the handle, the two flags are distinct objects,
    and the three objects exist. *)
Definition well_formed (w : world U) : Prop :=
  details.is_running_ptr (functor_of w) = is_running_ptr (handle w) ∧
  details.is_interrupted_ptr (functor_of w) = is_interrupted_ptr (handle w) ∧
  details.cv_ptr (functor_of w) = cv_ptr (handle w) ∧
  is_running_ptr (handle w) ≠ is_interrupted_ptr (handle w) ∧
  is_Some (RunningFlag w) ∧
  is_Some (InterruptFlag w) ∧
  is_Some (WakeSignal w).

(** ** The destructor *)

(** A call of the owning thread; [None] is an access through a pointer
    that owns no object. *)
Definition call (A : Type) : Type := world U → option (completion A * world U).

Definition ret {A : Type} (a : A) : call A := λ w, Some (Returns a, w).

Definition bind {A B : Type} (c : call A) (k : A → call B) : call B :=
  λ w, match c w with
       | Some (Returns a, w') => k a w'
       | Some (Throws e, w') => Some (Throws e, w')
       | Some (Pending, w') => Some (Pending, w')
       | Some (Terminated, w') => Some (Terminated, w')
       | None => None
       end.

(** [try { body } catch (...) { }] *)
Definition try_catch_all (body : call unit) : call unit :=
  λ w, match body w with
       | Some (Throws _, w') => Some (Returns tt, w')
       | other => other
       end.

Definition stop_call : call unit := λ w, Some (Returns tt, stop w).

(** [t.joinable()] *)
Definition joinable : call bool := λ w, Some (Returns (t_joinable (handle w)), w).

(** The worker alone, one transition per entry of [wakes]. *)
Definition run_worker (wakes : list cv_status) (w : world U) : option (world U) :=
  run (Work <$> wakes) w.

(** [t.join()].  [fault] is the error condition under which the library
    call fails, if any.  Otherwise the call blocks until [operator()] has
    returned; meanwhile the owner executes nothing, and the worker makes
    the transitions of [wakes]. *)
Definition join (fault : option exception) (wakes : list cv_status) : call unit :=
  λ w, match fault with
       | Some e => Some (Throws e, w)
       | None =>
           w' ← run_worker wakes w;
           if decide (pc_of w' = details.Returned)
           then Some (Returns tt,
                      World (mem w')
                        (Repeater (is_running_ptr (handle w'))
                           (is_interrupted_ptr (handle w'))
                           (cv_ptr (handle w')) false)
                        (worker w'))
           else Some (Pending, w')
       end.

(** lines 149-161: the [try] block with its handler, over the two calls
    it makes. *)
Definition try_block (stop_ join_ : call unit) : call unit :=
  try_catch_all
    (bind stop_ (λ _,
     bind joinable (λ j,
     if j : bool then join_ else ret tt))).

(** [~thread()], which runs for the member [t] (line 46) when the body of
    the destructor is left: destroying a thread that is still joinable
    calls [std::terminate].  The three shared pointers are released
    afterwards; the worker holds its own copies, so no object goes away
    with them. *)
Definition thread_destructor : call unit :=
  λ w, if t_joinable (handle w)
       then Some (Terminated, w)
       else Some (Returns tt, w).

(** lines 147-162, over the two calls of the [try] block: the body, then
    the destruction of the members. *)
Definition destructor_body (stop_ join_ : call unit) : call unit :=
  bind (try_block stop_ join_) (λ _, thread_destructor).

(** lines 147-162: [~repeater()] *)
Definition destructor (fault : option exception) (wakes : list cv_status)
  : call unit :=
  destructor_body stop_call (join fault wakes).

(** ** The protocol seen through the flags

    What the properties below speak about: the two flags, the program
    point of the worker and the number of invocations.  [view_exec] is the effect of
    one schedule entry on these; [exec_view] below shows that the
    statements and transitions defined above, acting on the heap through
    the pointers, have exactly this effect in every well-formed world. *)

(** The control flow of [operator()] as a function of the values the
    transition reads: [r] is [is_running_ptr->load()], [i] is
    [is_interrupted_ptr->load()]. *)
Definition successor (k : cv_status) (r i : bool) (l : details.pc) : details.pc :=
  match l with
  | details.LoopTop => if r then details.WaitPred else details.Returned
  | details.WaitPred => if i then details.Woken true else details.WaitBlocked
  | details.WaitBlocked =>
      match k with timeout => details.WaitTimedOut | no_timeout => details.WaitPred end
  | details.WaitTimedOut => details.Woken i
  | details.Woken b => if r then details.Decide b else details.LoopTop
  | details.Decide _ => details.Reset
  | details.Reset => details.LoopTop
  | details.Returned => details.Returned
  end.

(** The number of invocations of [fn] a transition makes. *)
Definition fires (policy : bool) (l : details.pc) : nat :=
  match l with
  | details.Decide b => if negb b || policy then 1 else 0
  | _ => 0
  end.

(** The value of [InterruptFlag] a transition leaves. *)
Definition leaves (i : bool) (l : details.pc) : bool :=
  match l with
  | details.Reset => false
  | _ => i
  end.

Definition policy_of (w : world U) : bool :=
  details.execute_if_interrupted (functor_of w).

Record view : Type := View {
  running : bool;
  interrupted : bool;
  point : details.pc;
  count : nat;
}.

Definition view_of (w : world U) : option view :=
  r ← RunningFlag w;
  i ← InterruptFlag w;
  Some (View r i (pc_of w) (calls_of w)).

Definition view_exec (policy : bool) (a : action) (v : view) : view :=
  match a with
  | Owner store_running_false => View false (interrupted v) (point v) (count v)
  | Owner store_interrupted_true => View (running v) true (point v) (count v)
  | Owner notify => v
  | Work k =>
      View (running v) (leaves (interrupted v) (point v))
        (successor k (running v) (interrupted v) (point v))
        (count v + fires policy (point v))
  end.

Definition view_run (policy : bool) (sched : list action) (v : view) : view :=
  foldl (λ v a, view_exec policy a v) v sched.

(** The number of transitions of the worker in a schedule. *)
Fixpoint transitions (sched : list action) : nat :=
  match sched with
  | [] => 0
  | Owner _ :: sched' => transitions sched'
  | Work _ :: sched' => S (transitions sched')
  end.

End Repeater.

(** ** Measures on program points *)

(** The program points from which a worker that reads [RunningFlag = false]
    leaves the loop without reaching line 116 again, and the number of
    transitions it needs for that. *)
Definition leaving (l : details.pc) : Prop :=
  match l with
  | details.Woken _ | details.LoopTop | details.Returned => True
  | _ => False
  end.

Definition distance (l : details.pc) : nat :=
  match l with
  | details.Returned => 0
  | details.LoopTop => 1
  | details.Woken _ | details.Reset => 2
  | details.Decide _ | details.WaitPred | details.WaitTimedOut => 3
  | details.WaitBlocked => 4
  end.

(** The number of invocations the current iteration of the loop can still
    make. *)
Definition pending (l : details.pc) : nat :=
  match l with
  | details.WaitPred | details.WaitBlocked | details.WaitTimedOut
  | details.Woken _ | details.Decide _ => 1
  | details.LoopTop | details.Reset | details.Returned => 0
  end.

(** After [stop], a worker at any program point returns within four
    transitions, provided [InterruptFlag] is still set or the worker is
    already past its wait. *)
Definition draining (v : view) : Prop :=
  running v = false ∧
  (interrupted v = true ∨
   match point v with
   | details.WaitPred | details.WaitBlocked | details.WaitTimedOut => False
   | _ => True
   end).

(** ** The worlds of the unit tests

    [InterruptDoesNothing] and [InterruptDoesSomething] of
    [unit_test/unit_test.cpp]: an interval in milliseconds, the policy
    flag, and a callback that increments a counter starting at 0. *)

Definition test_world (interval : Z) (execute_if_interrupted : bool) : world nat :=
  construct interval execute_if_interrupted S 0 (Heap ∅ ∅).

(** The world a schedule leads to. *)
Definition after {U : Type} (sched : list action) (w : world U) : world U :=
  default w (run sched w).

(** From the loop condition, one full interval without interference: the
    worker enters the wait, blocks, times out and reads the predicate one
    last time. *)
Definition timed_wait : list action :=
  [Work timeout; Work timeout; Work timeout; Work timeout].

(** The same, followed by the rest of the iteration: lines 113, 116-118
    and 122. *)
Definition full_period : list action :=
  timed_wait ++ [Work timeout; Work timeout; Work timeout].

(** From the loop condition, the worker blocks in its wait; then
    [interrupt()] is called and wakes it, and the worker finishes the
    iteration. *)
Definition begin_wait : list action := [Work timeout; Work timeout].
Definition interrupted_wait : list action :=
  (Owner <$> interrupt_body)
  ++ [Work no_timeout; Work timeout; Work timeout; Work timeout; Work timeout].

(** [TEST(Repeater, InterruptDoesNothing)] up to the destructor: two
    periods within 2500 ms, [interrupt()], two periods within the next
    2500 ms. *)
Definition InterruptDoesNothing : list action :=
  full_period ++ full_period ++ begin_wait ++ interrupted_wait
  ++ full_period ++ full_period ++ begin_wait.

(** [TEST(Repeater, InterruptDoesSomething)] up to the destructor: five
    periods within 2700 ms, [interrupt()] twice, two periods within
    1200 ms, [interrupt()]. *)
Definition InterruptDoesSomething : list action :=
  full_period ++ full_period ++ full_period ++ full_period ++ full_period
  ++ begin_wait ++ interrupted_wait
  ++ begin_wait ++ interrupted_wait
  ++ full_period ++ full_period
  ++ begin_wait ++ interrupted_wait ++ begin_wait.

(** The world the destructor leaves when [join()] does not fail. *)
Definition destroyed {U : Type} (wakes : list cv_status) (w : world U) : world U :=
  match destructor None wakes w with
  | Some (_, w') => w'
  | None => w
  end.

(** ** Periods

    What the unit tests are made of.  Between two checks of its counter a
    test lets some intervals elapse ([sleep_for]) or calls [interrupt()]
    while the worker is blocked in its wait. *)
Inductive period : Type :=
| FullInterval          (* the wait lasts the whole interval *)
| InterruptedInterval.  (* [interrupt()] ends the wait *)

Definition period_schedule (p : period) : list action :=
  match p with
  | FullInterval => full_period
  | InterruptedInterval => begin_wait ++ interrupted_wait
  end.

Definition periods_schedule (ps : list period) : list action :=
  concat (period_schedule <$> ps).

(** The count a test expects after the periods [ps]. *)
Fixpoint expected_count (execute_if_interrupted : bool) (ps : list period) : nat :=
  match ps with
  | [] => 0
  | FullInterval :: ps' => S (expected_count execute_if_interrupted ps')
  | InterruptedInterval :: ps' =>
      (if execute_if_interrupted then 1 else 0)
      + expected_count execute_if_interrupted ps'
  end.

(** The worker is inside [wait_for]. *)
Definition waiting (l : details.pc) : Prop :=
  match l with
  | details.WaitPred | details.WaitBlocked | details.WaitTimedOut => True
  | _ => False
  end.

(** The worker is at line 116, past the check of [RunningFlag]. *)
Definition deciding (l : details.pc) : Prop :=
  match l with
  | details.Decide _ => True
  | _ => False
  end.

(** ** Facts about the heap *)

Lemma load_store_eq (p : loc) (v : bool) (h : heap) :
  load p (store p v h) = Some v.
Proof. unfold load, store; simpl. apply lookup_insert_eq. Qed.

Lemma load_store_ne (p q : loc) (v : bool) (h : heap) :
  p ≠ q → load q (store p v h) = load q h.
Proof. intros Hpq. unfold load, store; simpl. by apply lookup_insert_ne. Qed.

Lemma load_notify_one (p q : loc) (h : heap) :
  load q (notify_one p h) = load q h.
Proof. reflexivity. Qed.

Lemma notifications_store (p q : loc) (v : bool) (h : heap) :
  notifications q (store p v h) = notifications q h.
Proof. reflexivity. Qed.

Lemma notifications_notify_one (p : loc) (h : heap) :
  notifications p (notify_one p h) = S <$> notifications p h.
Proof. unfold notifications, notify_one; simpl. apply lookup_alter_eq. Qed.

Lemma store_same (p : loc) (v : bool) (h : heap) :
  load p h = Some v → store p v h = h.
Proof.
  destruct h as [bs cs]. unfold load, store; simpl. intros Hp.
  by rewrite insert_id.
Qed.

(** ** Facts about single statements and transitions *)

Section Steps.
Context {U : Type}.
Implicit Types (w : world U) (k : cv_status) (s : owner_stmt).

Lemma well_formed_flags w :
  well_formed w → ∃ r i, RunningFlag w = Some r ∧ InterruptFlag w = Some i.
Proof.
  intros (_ & _ & _ & _ & [r Hr] & [i Hi] & _). eauto.
Qed.

Lemma owner_step_spec s w :
  well_formed w →
  well_formed (owner_step s w) ∧
  handle (owner_step s w) = handle w ∧
  worker (owner_step s w) = worker w ∧
  RunningFlag (owner_step s w)
    = match s with store_running_false => Some false | _ => RunningFlag w end ∧
  InterruptFlag (owner_step s w)
    = match s with store_interrupted_true => Some true | _ => InterruptFlag w end ∧
  WakeSignal (owner_step s w)
    = match s with notify => S <$> WakeSignal w | _ => WakeSignal w end.
Proof.
  destruct w as [h r t].
  unfold well_formed, RunningFlag, InterruptFlag, WakeSignal, functor_of; simpl.
  intros (Hrun & Hint & Hcv & Hne & Hr & Hi & Hc).
  destruct s; simpl;
    rewrite ?load_store_eq, ?load_notify_one, ?notifications_store,
      ?notifications_notify_one, ?(load_store_ne _ _ _ _ Hne),
      ?(load_store_ne _ _ _ _ (not_eq_sym Hne));
    repeat split; eauto.
  destruct Hc as [n ->]. eauto.
Qed.

Lemma worker_step_spec k w r i :
  well_formed w →
  RunningFlag w = Some r →
  InterruptFlag w = Some i →
  ∃ w', worker_step k w = Some w' ∧
    well_formed w' ∧
    handle w' = handle w ∧
    functor_of w' = functor_of w ∧
    RunningFlag w' = Some r ∧
    InterruptFlag w' = Some (leaves i (pc_of w)) ∧
    WakeSignal w' = WakeSignal w ∧
    pc_of w' = successor k r i (pc_of w) ∧
    calls_of w' = calls_of w + fires (policy_of w) (pc_of w).
Proof.
  destruct w as [h hd [f l u n]].
  unfold policy_of, well_formed, RunningFlag, InterruptFlag, WakeSignal,
    functor_of, pc_of, calls_of, worker_step, details.step; simpl.
  intros (Hrun & Hint & Hcv & Hne & Hr & Hi & [c Hc]) Hr' Hi'.
  rewrite Hrun, Hint, Hcv.
  destruct l as [ | | | | b | b | | ]; simpl;
    rewrite ?Hr', ?Hi', ?Hc; simpl.
  all: try (eexists; split; [reflexivity|]; simpl;
            rewrite ?Hr', ?Hi', ?Hc, ?Nat.add_0_r; repeat split; eauto; fail).
  - (* Decide *)
    destruct (negb b || details.execute_if_interrupted f); simpl;
      eexists; (split; [reflexivity|]); simpl;
      rewrite ?Hr', ?Hi', ?Hc; repeat split; eauto; lia.
  - (* Reset *)
    eexists; split; [reflexivity|]; simpl.
    rewrite load_store_eq, notifications_store, Hc,
      (load_store_ne _ _ _ _ (not_eq_sym Hne)), Hr', Nat.add_0_r.
    repeat split; eauto.
Qed.

End Steps.

(** ** Executions seen through the flags *)

Section Views.
Context {U : Type}.
Implicit Types (w : world U) (v : view) (a : action) (sched : list action).

Lemma view_of_Some w v :
  view_of w = Some v ↔
  RunningFlag w = Some (running v) ∧ InterruptFlag w = Some (interrupted v) ∧
  pc_of w = point v ∧ calls_of w = count v.
Proof.
  unfold view_of. split.
  - destruct (RunningFlag w) as [r|]; [|discriminate].
    destruct (InterruptFlag w) as [i|]; [|discriminate].
    simpl. intros [= <-]. auto.
  - intros (-> & -> & Hp & Hc). destruct v; simpl in *. congruence.
Qed.

Lemma well_formed_view w : well_formed w → is_Some (view_of w).
Proof.
  intros Hw. destruct (well_formed_flags w Hw) as (r & i & Hr & Hi).
  exists (View r i (pc_of w) (calls_of w)). by apply view_of_Some.
Qed.

Lemma policy_of_functor w w' :
  functor_of w' = functor_of w → policy_of w' = policy_of w.
Proof. unfold policy_of. by intros ->. Qed.

Lemma exec_view a w v :
  well_formed w → view_of w = Some v →
  ∃ w', exec a w = Some w' ∧ well_formed w' ∧
    handle w' = handle w ∧ functor_of w' = functor_of w ∧
    view_of w' = Some (view_exec (policy_of w) a v).
Proof.
  intros Hw (Hr & Hi & Hp & Hc)%view_of_Some. destruct a as [s|k]; simpl.
  - destruct (owner_step_spec s w Hw) as (Hw' & Hh & Hwk & Hr' & Hi' & _).
    eexists; split; [reflexivity|].
    split; [exact Hw'|]. split; [exact Hh|]. split.
    + unfold functor_of. by rewrite Hwk.
    + apply view_of_Some. unfold pc_of, calls_of. rewrite Hr', Hi', Hwk.
      fold (pc_of w) (calls_of w). by destruct s.
  - destruct (worker_step_spec k w _ _ Hw Hr Hi)
      as (w' & Hs & Hw' & Hh & Hf & Hr' & Hi' & _ & Hp' & Hc').
    exists w'. split; [exact Hs|]. split; [exact Hw'|].
    split; [exact Hh|]. split; [exact Hf|].
    apply view_of_Some; simpl. rewrite Hr', Hi', Hp', Hc', Hp, Hc. done.
Qed.

Lemma run_view sched w v :
  well_formed w → view_of w = Some v →
  ∃ w', run sched w = Some w' ∧ well_formed w' ∧
    handle w' = handle w ∧ functor_of w' = functor_of w ∧
    view_of w' = Some (view_run (policy_of w) sched v).
Proof.
  revert w v. induction sched as [|a sched IH]; intros w v Hw Hv; simpl.
  - exists w. auto.
  - destruct (exec_view a w v Hw Hv) as (w1 & -> & Hw1 & Hh1 & Hf1 & Hv1); simpl.
    destruct (IH w1 _ Hw1 Hv1) as (w' & Hrun & Hw' & Hh' & Hf' & Hv').
    exists w'. rewrite (policy_of_functor _ _ Hf1) in Hv'.
    split; [exact Hrun|]. split; [exact Hw'|].
    split; [congruence|]. split; [congruence|]. exact Hv'.
Qed.

Lemma run_app sched1 sched2 w :
  run (sched1 ++ sched2) w = w1 ← run sched1 w; run sched2 w1.
Proof.
  revert w. induction sched1 as [|a sched1 IH]; intros w; simpl; [done|].
  destruct (exec a w) as [w1|]; simpl; [apply IH|done].
Qed.

Lemma view_run_app policy sched1 sched2 v :
  view_run policy (sched1 ++ sched2) v
  = view_run policy sched2 (view_run policy sched1 v).
Proof. apply foldl_app. Qed.

Lemma construct_well_formed interval policy (fn : U → U) u h :
  well_formed (construct interval policy fn u h).
Proof.
  unfold well_formed, construct, RunningFlag, InterruptFlag, WakeSignal,
    functor_of, load, notifications; simpl.
  set (p := fresh (dom (atomic_bools h))).
  set (q := fresh (dom (<[p:=true]> (atomic_bools h)))).
  assert (p ≠ q) as Hpq.
  { intros Heq. apply (is_fresh (dom (<[p:=true]> (atomic_bools h)))).
    fold q. rewrite <- Heq. apply elem_of_dom. rewrite lookup_insert_eq. eauto. }
  repeat split; try done.
  - rewrite lookup_insert_ne by done. rewrite lookup_insert_eq. eauto.
  - rewrite lookup_insert_eq. eauto.
  - rewrite lookup_insert_eq. eauto.
Qed.

Lemma construct_view interval policy (fn : U → U) u h :
  view_of (construct interval policy fn u h)
  = Some (View true false details.LoopTop 0).
Proof.
  pose proof (construct_well_formed interval policy fn u h) as Hw.
  apply view_of_Some; simpl.
  destruct Hw as (_ & _ & _ & Hne & _). revert Hne.
  unfold construct, RunningFlag, InterruptFlag, load; simpl. intros Hne.
  repeat split.
  - rewrite lookup_insert_ne by (intros Heq; apply Hne; done).
    apply lookup_insert_eq.
  - apply lookup_insert_eq.
Qed.

End Views.

(** ** Properties of the flag-level transitions *)

Section ViewFacts.
Implicit Types (v : view) (a : action) (sched : list action) (policy : bool).

Lemma view_run_cons policy a sched v :
  view_run policy (a :: sched) v = view_run policy sched (view_exec policy a v).
Proof. reflexivity. Qed.

(** Nothing sets [RunningFlag] again. *)
Lemma view_exec_stopped policy a v :
  running v = false → running (view_exec policy a v) = false.
Proof. destruct a as [[]|k]; simpl; auto. Qed.

Lemma view_run_stopped policy sched v :
  running v = false → running (view_run policy sched v) = false.
Proof.
  revert v. induction sched as [|a sched IH]; intros v Hv; [done|].
  rewrite view_run_cons. apply IH. by apply view_exec_stopped.
Qed.

(** A worker that is about to read [RunningFlag = false] at line 113 or
    line 104 leaves the loop: no invocation, and [Returned] after two
    transitions. *)
Lemma view_run_leaving policy sched v :
  running v = false → leaving (point v) →
  let v' := view_run policy sched v in
  running v' = false ∧ leaving (point v') ∧ count v' = count v ∧
  distance (point v') ≤ distance (point v) - transitions sched.
Proof.
  revert v. induction sched as [|a sched IH]; intros v Hr Hl.
  - simpl. repeat split; auto. lia.
  - rewrite view_run_cons.
    destruct (IH (view_exec policy a v)) as (Hr' & Hl' & Hc' & Hd').
    { by apply view_exec_stopped. }
    { destruct a as [[]|k]; simpl; auto.
      rewrite Hr. by destruct (point v). }
    cbv zeta. split; [exact Hr'|]. split; [exact Hl'|].
    destruct a as [[]|k]; simpl in *; try (split; [lia|lia]).
    rewrite Hr in *. destruct (point v); simpl in *; try done; lia.
Qed.

Lemma view_exec_draining policy a v :
  draining v →
  draining (view_exec policy a v) ∧
  distance (point (view_exec policy a v))
    ≤ distance (point v) - (match a with Work _ => 1 | Owner _ => 0 end) ∧
  count (view_exec policy a v) ≤ count v + pending (point v) ∧
  count (view_exec policy a v) + pending (point (view_exec policy a v))
    ≤ count v + pending (point v).
Proof.
  intros [Hr Hi]. destruct v as [r i l n]; simpl in *; subst r.
  destruct a as [[]|k]; simpl; unfold draining; simpl.
  1-3: repeat split; auto; lia.
  destruct l as [ | | | | b | b | | ], i, k; simpl;
    try (destruct Hi as [Hi|Hi]; (discriminate Hi || contradiction Hi));
    repeat split; auto;
    try (destruct (negb b || policy)); simpl; lia.
Qed.

Lemma view_run_draining policy sched v :
  draining v →
  let v' := view_run policy sched v in
  draining v' ∧
  distance (point v') ≤ distance (point v) - transitions sched ∧
  count v' ≤ count v + pending (point v).
Proof.
  revert v. induction sched as [|a sched IH]; intros v Hd.
  - simpl. repeat split; try apply Hd; lia.
  - rewrite view_run_cons.
    destruct (view_exec_draining policy a v Hd) as (Hd1 & Hm1 & Hc1 & Hp1).
    destruct (IH _ Hd1) as (Hd2 & Hm2 & Hc2).
    cbv zeta. split; [exact Hd2|].
    destruct a as [s|k]; simpl in *; lia.
Qed.

(** [Returned] is final. *)
Lemma view_run_returned policy sched v :
  point v = details.Returned →
  point (view_run policy sched v) = details.Returned ∧
  count (view_run policy sched v) = count v.
Proof.
  revert v. induction sched as [|a sched IH]; intros v Hp; [done|].
  rewrite view_run_cons.
  destruct (IH (view_exec policy a v)) as [Hp' Hc'].
  { destruct a as [[]|k]; simpl; auto. by rewrite Hp. }
  split; [exact Hp'|]. rewrite Hc'.
  destruct a as [[]|k]; simpl; auto. rewrite Hp; simpl. lia.
Qed.

(** The first invocation comes after the worker has entered its wait. *)
Lemma view_run_waits_first policy sched v :
  point v = details.LoopTop →
  count v < count (view_run policy sched v) →
  ∃ sched1 sched2, sched = sched1 ++ sched2 ∧
    point (view_run policy sched1 v) = details.WaitPred ∧
    count (view_run policy sched1 v) = count v.
Proof.
  revert v. induction sched as [|a sched IH]; intros v Hp Hc.
  - simpl in Hc. lia.
  - rewrite view_run_cons in Hc. destruct a as [s|k].
    + destruct (IH (view_exec policy (Owner s) v)) as (s1 & s2 & -> & Hp1 & Hc1).
      { by destruct s. }
      { by destruct s. }
      exists (Owner s :: s1), s2. rewrite view_run_cons.
      split; [done|]. split; [exact Hp1|]. rewrite Hc1. by destruct s.
    + destruct (running v) eqn:Hr.
      * exists [Work k], sched. simpl. rewrite Hp, Hr. simpl.
        split; [done|]. split; [done|]. lia.
      * exfalso.
        destruct (view_run_returned policy sched (view_exec policy (Work k) v))
          as [_ Hc'].
        { simpl. by rewrite Hp, Hr. }
        rewrite Hc' in Hc. simpl in Hc. rewrite Hp in Hc. simpl in Hc. lia.
Qed.

(** One iteration of the loop invokes the callback at most once. *)
Lemma view_exec_pending policy a v :
  point v ≠ details.LoopTop ∨ (∃ s, a = Owner s) →
  count (view_exec policy a v) + pending (point (view_exec policy a v))
  ≤ count v + pending (point v).
Proof.
  intros H. destruct a as [[]|k]; simpl; try lia.
  destruct H as [H|[s Hs]]; [|discriminate].
  destruct v as [r i l n]; simpl in *.
  destruct l as [ | | | | b | b | | ]; try done;
    destruct r, i, k; simpl; try (destruct (negb b || policy)); simpl; lia.
Qed.

(** Once [RunningFlag] is false no new iteration starts: the callback can
    only be invoked by the iteration in flight. *)
Lemma view_run_stopped_pending policy sched v :
  running v = false →
  count (view_run policy sched v) + pending (point (view_run policy sched v))
  ≤ count v + pending (point v).
Proof.
  revert v. induction sched as [|a sched IH]; intros v Hr; [done|].
  rewrite view_run_cons.
  etrans; [apply IH; by apply view_exec_stopped|].
  destruct a as [[]|k]; simpl; try lia.
  destruct v as [r i l n]; simpl in *; subst r.
  destruct l as [ | | | | b | b | | ], i, k; simpl;
    try (destruct (negb b || policy)); simpl; lia.
Qed.

Lemma transitions_app sched1 sched2 :
  transitions (sched1 ++ sched2) = transitions sched1 + transitions sched2.
Proof.
  induction sched1 as [|[s|k] sched1 IH]; simpl; auto.
Qed.

Lemma transitions_work (wakes : list cv_status) :
  transitions (Work <$> wakes) = length wakes.
Proof. induction wakes; simpl; auto. Qed.

End ViewFacts.

(** ** The calls of the owner as schedules *)

Section Calls.
Context {U : Type}.
Implicit Types (w : world U).

Lemma interrupt_as_run w : run (Owner <$> interrupt_body) w = Some (interrupt w).
Proof. reflexivity. Qed.

Lemma stop_as_run w : run (Owner <$> stop_body) w = Some (stop w).
Proof. reflexivity. Qed.

Lemma interrupt_view w v :
  well_formed w → view_of w = Some v →
  well_formed (interrupt w) ∧
  view_of (interrupt w) = Some (View (running v) true (point v) (count v)).
Proof.
  intros Hw Hv.
  destruct (run_view (Owner <$> interrupt_body) w v Hw Hv)
    as (w' & Hrun & Hw' & _ & _ & Hv').
  rewrite interrupt_as_run in Hrun. injection Hrun as <-. done.
Qed.

Lemma stop_view w v :
  well_formed w → view_of w = Some v →
  well_formed (stop w) ∧
  view_of (stop w) = Some (View false true (point v) (count v)).
Proof.
  intros Hw Hv.
  destruct (run_view (Owner <$> stop_body) w v Hw Hv)
    as (w' & Hrun & Hw' & _ & _ & Hv').
  rewrite stop_as_run in Hrun. injection Hrun as <-. done.
Qed.

Lemma interrupt_signal w :
  well_formed w → WakeSignal (interrupt w) = S <$> WakeSignal w.
Proof.
  intros Hw. unfold WakeSignal, interrupt; simpl.
  by rewrite notifications_notify_one, notifications_store.
Qed.

Lemma stop_signal w :
  well_formed w → WakeSignal (stop w) = S <$> WakeSignal w.
Proof.
  intros Hw. unfold WakeSignal, stop; simpl.
  by rewrite notifications_notify_one, !notifications_store.
Qed.

End Calls.

(** ** Executions: history of the running flag, iterations *)

Section Executions.
Context {U : Type}.
Implicit Types (w : world U) (a : action) (sched : list action).

Lemma exec_running a w r :
  well_formed w → RunningFlag w = Some r →
  ∃ w', exec a w = Some w' ∧ well_formed w' ∧
    RunningFlag w' = Some match a with
                          | Owner store_running_false => false
                          | _ => r
                          end.
Proof.
  intros Hw Hr. destruct (well_formed_view w Hw) as [v Hv].
  destruct (exec_view a w v Hw Hv) as (w' & He & Hw' & _ & _ & Hv').
  exists w'. split; [exact He|]. split; [exact Hw'|].
  apply view_of_Some in Hv as (Hr0 & _).
  apply view_of_Some in Hv' as (Hr' & _). rewrite Hr'. f_equal.
  assert (running v = r) as <- by congruence.
  by destruct a as [[]|k].
Qed.

Lemma visited_stopped sched w :
  well_formed w → RunningFlag w = Some false →
  RunningFlag <$> visited sched w = replicate (S (length sched)) (Some false).
Proof.
  revert w. induction sched as [|a sched IH]; intros w Hw Hr; simpl.
  - by rewrite Hr.
  - destruct (exec_running a w false Hw Hr) as (w' & -> & Hw' & Hr').
    rewrite Hr. f_equal. apply IH; [exact Hw'|].
    rewrite Hr'. by destruct a as [[]|k].
Qed.

Lemma visited_monotone sched w :
  well_formed w → RunningFlag w = Some true →
  ∃ n m, S n + m = S (length sched) ∧
    RunningFlag <$> visited sched w
    = replicate (S n) (Some true) ++ replicate m (Some false).
Proof.
  revert w. induction sched as [|a sched IH]; intros w Hw Hr.
  - exists 0, 0. simpl. by rewrite Hr.
  - cbn [visited fmap list_fmap].
    destruct (exec_running a w true Hw Hr) as (w' & -> & Hw' & Hr').
    rewrite Hr.
    destruct (decide (a = Owner store_running_false)) as [->|Hne].
    + exists 0, (S (length sched)). split; [done|].
      change (list_fmap _ _ ?f ?l) with (f <$> l).
      by rewrite (visited_stopped sched w' Hw' Hr').
    + assert (RunningFlag w' = Some true) as Hr''.
      { rewrite Hr'. by destruct a as [[]|k]. }
      destruct (IH w' Hw' Hr'') as (n & m & Hlen & Heq).
      exists (S n), m. split; [simpl in *; lia|].
      change (list_fmap _ _ ?f ?l) with (f <$> l). by rewrite Heq.
Qed.

Lemma exec_pending a w :
  well_formed w → pc_of w ≠ details.LoopTop →
  ∃ w', exec a w = Some w' ∧ well_formed w' ∧
    calls_of w' + pending (pc_of w') ≤ calls_of w + pending (pc_of w).
Proof.
  intros Hw Hp. destruct (well_formed_view w Hw) as [v Hv].
  destruct (exec_view a w v Hw Hv) as (w' & He & Hw' & _ & _ & Hv').
  exists w'. split; [exact He|]. split; [exact Hw'|].
  apply view_of_Some in Hv as (_ & _ & Hp0 & Hc0).
  apply view_of_Some in Hv' as (_ & _ & -> & ->). rewrite Hp0, Hc0.
  apply view_exec_pending. left. congruence.
Qed.

Lemma run_within_iteration sched w :
  well_formed w →
  Forall (λ x, pc_of x ≠ details.LoopTop) (visited (removelast sched) w) →
  ∃ w', run sched w = Some w' ∧
    calls_of w' + pending (pc_of w') ≤ calls_of w + pending (pc_of w).
Proof.
  revert w. induction sched as [|a sched IH]; intros w Hw Hall.
  - exists w. by split.
  - assert (pc_of w ≠ details.LoopTop) as Hp.
    { destruct sched; simpl in Hall; by inversion Hall. }
    destruct (exec_pending a w Hw Hp) as (w1 & He & Hw1 & Hle).
    cbn [run]. rewrite He. simpl.
    destruct sched as [|a' sched].
    + exists w1. by split.
    + destruct (IH w1 Hw1) as (w' & Hrun & Hle').
      { change (removelast (a :: a' :: sched))
          with (a :: removelast (a' :: sched)) in Hall.
        cbn [visited] in Hall. rewrite He in Hall. by inversion Hall. }
      exists w'. split; [exact Hrun|lia].
Qed.

(** The statements of the owner move neither the worker nor its count. *)
Lemma view_run_owner policy (o : list owner_stmt) (v : view) :
  let v' := view_run policy (Owner <$> o) v in
  point v' = point v ∧ count v' = count v ∧
  (running v = false → running v' = false) ∧
  (store_interrupted_true ∈ o → interrupted v' = true) ∧
  (store_interrupted_true ∉ o → interrupted v' = interrupted v).
Proof.
  revert v. induction o as [|s o IH]; intros v.
  - simpl. repeat split; auto. intros H. by apply elem_of_nil in H.
  - cbn [fmap list_fmap]. change (list_fmap _ _ ?f ?l) with (f <$> l).
    rewrite view_run_cons.
    destruct (IH (view_exec policy (Owner s) v)) as (Hp & Hc & Hr & Hi1 & Hi2).
    cbv zeta. rewrite Hp, Hc.
    split; [by destruct s|]. split; [by destruct s|].
    split; [intros H; apply Hr; by destruct s|]. split.
    + intros [<-|Hin]%elem_of_cons.
      * destruct (decide (store_interrupted_true ∈ o)) as [Hin|Hout]; [auto|].
        by rewrite (Hi2 Hout).
      * auto.
    + intros [Hne Hout]%not_elem_of_cons. rewrite (Hi2 Hout). by destruct s.
Qed.

End Executions.

(** ** The callback and its captured state *)

Section StepFacts.
Context {U : Type}.
Implicit Types (w : world U) (a : action) (sched : list action).

(** A transition of the worker leaves the functor as it is; it invokes
    [fn] at most once, and the captured state changes by [fn] only. *)
Lemma exec_captured a w w1 :
  exec a w = Some w1 →
  functor_of w1 = functor_of w ∧
  ((calls_of w1 = calls_of w ∧
    details.captured (worker w1) = details.captured (worker w)) ∨
   (calls_of w1 = S (calls_of w) ∧
    details.captured (worker w1)
    = details.fn (functor_of w) (details.captured (worker w)))).
Proof.
  destruct a as [s|k]; simpl.
  - intros [= <-]. split; [done|]. by left.
  - destruct w as [h hd [f l u n]].
    unfold worker_step, details.step, functor_of, calls_of; simpl.
    destruct l as [ | | | | b | b | | ]; simpl;
      try (destruct (load _ h) as [[]|]; simpl);
      try (destruct (notifications _ h) as [c|]; simpl);
      try (destruct (negb b || details.execute_if_interrupted f) eqn:Hfire;
           simpl);
      try discriminate; intros [= <-]; simpl; (split; [done|]);
      try (by left).
    by right.
Qed.

(** A transition of the worker writes nothing but [false] to the object
    behind its [is_interrupted_ptr]. *)
Lemma worker_step_mem k w w1 :
  worker_step k w = Some w1 →
  handle w1 = handle w ∧
  (mem w1 = mem w ∨
   mem w1 = store (details.is_interrupted_ptr (functor_of w)) false (mem w)).
Proof.
  destruct w as [h hd [f l u n]].
  unfold worker_step, details.step, functor_of; simpl.
  destruct l as [ | | | | b | b | | ]; simpl;
    try (destruct (load _ h) as [[]|]; simpl);
    try (destruct (notifications _ h) as [c|]; simpl);
    try discriminate; intros [= <-]; simpl; (split; [done|]);
    try (by left).
  by right.
Qed.

Lemma run_captured sched w w' :
  run sched w = Some w' →
  calls_of w ≤ calls_of w' ∧
  details.captured (worker w')
  = Nat.iter (calls_of w' - calls_of w) (details.fn (functor_of w))
      (details.captured (worker w)).
Proof.
  revert w. induction sched as [|a sched IH]; intros w; simpl.
  - intros [= <-]. split; [done|]. by rewrite Nat.sub_diag.
  - destruct (exec a w) as [w1|] eqn:He; [|done]. simpl. intros Hrun.
    destruct (IH w1 Hrun) as [Hle Hcap].
    destruct (exec_captured a w w1 He) as [Hf [[Hc Hu]|[Hc Hu]]];
      rewrite Hf, Hc, Hu in *.
    + done.
    + split; [lia|]. rewrite Hcap.
      replace (calls_of w' - calls_of w) with (S (calls_of w' - S (calls_of w)))
        by lia.
      by rewrite Nat.iter_succ_r.
Qed.

Lemma thread_eq (t1 t2 : details.thread U) :
  details.self t1 = details.self t2 →
  details.at_pc t1 = details.at_pc t2 →
  details.captured t1 = details.captured t2 →
  details.calls t1 = details.calls t2 →
  t1 = t2.
Proof. destruct t1, t2; simpl. congruence. Qed.

End StepFacts.

(** ** The destructor *)

Section Destructor.
Context {U : Type}.
Implicit Types (w : world U) (wakes : list cv_status).

(** Once [stop()] has run, the worker returns within four transitions,
    whatever the waits return, and invokes the callback at most once more
    (the iteration in flight). *)
Lemma run_worker_drains wakes w v :
  well_formed w → view_of w = Some v → draining v →
  ∃ w', run_worker wakes w = Some w' ∧ well_formed w' ∧
    handle w' = handle w ∧
    RunningFlag w' = Some false ∧
    calls_of w' ≤ calls_of w + pending (pc_of w) ∧
    (4 ≤ length wakes → pc_of w' = details.Returned).
Proof.
  intros Hw Hv Hd. unfold run_worker.
  destruct (run_view (Work <$> wakes) w v Hw Hv)
    as (w' & Hrun & Hw' & Hh & _ & Hv').
  destruct (view_run_draining (policy_of w) (Work <$> wakes) v Hd)
    as ([Hr' _] & Hdist & Hcount).
  rewrite transitions_work in Hdist.
  apply view_of_Some in Hv as (_ & _ & Hp & Hc).
  apply view_of_Some in Hv' as (Hr'' & _ & Hp' & Hc').
  exists w'. split; [exact Hrun|]. split; [exact Hw'|]. split; [exact Hh|].
  split; [congruence|]. split; [rewrite Hc', Hc, Hp; exact Hcount|].
  intros Hlen. rewrite Hp'.
  assert (distance (point v) ≤ 4) by (destruct (point v); simpl; lia).
  destruct (point (view_run (policy_of w) (Work <$> wakes) v));
    simpl in *; try done; lia.
Qed.

Lemma stop_draining w v :
  well_formed w → view_of w = Some v →
  well_formed (stop w) ∧ ∃ v', view_of (stop w) = Some v' ∧ draining v' ∧
    point v' = point v ∧ count v' = count v.
Proof.
  intros Hw Hv. destruct (stop_view w v Hw Hv) as [Hw' Hv'].
  split; [exact Hw'|]. eexists. split; [exact Hv'|].
  unfold draining; simpl. auto.
Qed.

(** The [try] block of the destructor, case by case. *)
Lemma try_block_not_joinable fault wakes w :
  t_joinable (handle w) = false →
  try_block stop_call (join fault wakes) w = Some (Returns tt, stop w).
Proof.
  intros Hj. unfold try_block, try_catch_all, bind, stop_call, joinable.
  change (t_joinable (handle (stop w))) with (t_joinable (handle w)).
  by rewrite Hj.
Qed.

Lemma try_block_joinable fault wakes w :
  t_joinable (handle w) = true →
  try_block stop_call (join fault wakes) w
  = try_catch_all (join fault wakes) (stop w).
Proof.
  intros Hj. unfold try_block, try_catch_all, bind, stop_call, joinable.
  change (t_joinable (handle (stop w))) with (t_joinable (handle w)).
  by rewrite Hj.
Qed.

Lemma try_block_join_fails e wakes w :
  t_joinable (handle w) = true →
  try_block stop_call (join (Some e) wakes) w = Some (Returns tt, stop w).
Proof. intros Hj. by rewrite try_block_joinable. Qed.

Lemma destructor_not_joinable fault wakes w :
  t_joinable (handle w) = false →
  destructor fault wakes w = Some (Returns tt, stop w).
Proof.
  intros Hj. unfold destructor, destructor_body, bind.
  rewrite (try_block_not_joinable _ _ _ Hj). unfold thread_destructor.
  change (t_joinable (handle (stop w))) with (t_joinable (handle w)).
  by rewrite Hj.
Qed.

Lemma destructor_join_fails e wakes w :
  t_joinable (handle w) = true →
  destructor (Some e) wakes w = Some (Terminated, stop w).
Proof.
  intros Hj. unfold destructor, destructor_body, bind.
  rewrite (try_block_join_fails _ _ _ Hj). unfold thread_destructor.
  change (t_joinable (handle (stop w))) with (t_joinable (handle w)).
  by rewrite Hj.
Qed.

Lemma destructor_joins wakes w :
  t_joinable (handle w) = true →
  destructor None wakes w
  = match run_worker wakes (stop w) with
    | Some w1 =>
        if decide (pc_of w1 = details.Returned)
        then Some (Returns tt,
                   World (mem w1)
                     (Repeater (is_running_ptr (handle w1))
                        (is_interrupted_ptr (handle w1)) (cv_ptr (handle w1))
                        false)
                     (worker w1))
        else Some (Pending, w1)
    | None => None
    end.
Proof.
  intros Hj. unfold destructor, destructor_body, bind.
  rewrite (try_block_joinable _ _ _ Hj). unfold try_catch_all, join.
  destruct (run_worker wakes (stop w)) as [w1|]; simpl; [|done].
  by destruct (decide (pc_of w1 = details.Returned)).
Qed.

(** Every way the destructor can end. *)
Lemma destructor_cases fault wakes w :
  (t_joinable (handle w) = false ∧
   destructor fault wakes w = Some (Returns tt, stop w)) ∨
  (t_joinable (handle w) = true ∧ is_Some fault ∧
   destructor fault wakes w = Some (Terminated, stop w)) ∨
  (t_joinable (handle w) = true ∧ fault = None ∧
   run_worker wakes (stop w) = None ∧ destructor fault wakes w = None) ∨
  (t_joinable (handle w) = true ∧ fault = None ∧
   ∃ w1, run_worker wakes (stop w) = Some w1 ∧
     pc_of w1 ≠ details.Returned ∧
     destructor fault wakes w = Some (Pending, w1)) ∨
  (t_joinable (handle w) = true ∧ fault = None ∧
   ∃ w1, run_worker wakes (stop w) = Some w1 ∧
     pc_of w1 = details.Returned ∧
     destructor fault wakes w
     = Some (Returns tt,
             World (mem w1)
               (Repeater (is_running_ptr (handle w1))
                  (is_interrupted_ptr (handle w1)) (cv_ptr (handle w1)) false)
               (worker w1))).
Proof.
  destruct (t_joinable (handle w)) eqn:Hj.
  - right. destruct fault as [e|].
    + left. rewrite (destructor_join_fails _ _ _ Hj).
      split; [done|]. split; [by eexists|done].
    + right. rewrite (destructor_joins _ _ Hj).
      destruct (run_worker wakes (stop w)) as [w1|] eqn:Hrun.
      * right. destruct (decide (pc_of w1 = details.Returned)) as [Hp|Hp].
        -- right. split; [done|]. split; [done|]. exists w1. by split.
        -- left. split; [done|]. split; [done|]. exists w1. by split.
      * left. by split.
  - left. by rewrite (destructor_not_joinable _ _ _ Hj).
Qed.

(** What the destructor executes on the shared objects is [stop()]
    followed by transitions of the worker: a schedule. *)
Lemma destructor_as_run fault wakes w c w' :
  destructor fault wakes w = Some (c, w') →
  ∃ n w'', run ((Owner <$> stop_body) ++ (Work <$> take n wakes)) w = Some w'' ∧
    mem w' = mem w'' ∧ worker w' = worker w''.
Proof.
  destruct (destructor_cases fault wakes w)
    as [[_ ->]|[(_ & _ & ->)|[(_ & _ & _ & ->)
        |[(_ & _ & w1 & Hrun & _ & ->)|(_ & _ & w1 & Hrun & _ & ->)]]]];
    try discriminate; intros [= <- <-].
  - exists 0, (stop w). by rewrite take_0.
  - exists 0, (stop w). by rewrite take_0.
  - exists (length wakes), w1.
    by rewrite firstn_all, run_app, stop_as_run.
  - exists (length wakes), w1.
    by rewrite firstn_all, run_app, stop_as_run.
Qed.

(** The same when the worker moves between the statements of [stop()]:
    however the three statements interleave with transitions of the
    worker, the worker returns within four transitions after the last of
    them, and only the iteration in flight can still invoke the
    callback. *)
Lemma stop_interleaved_drains wakes1 wakes2 wakes3 w :
  well_formed w →
  ∃ w', run ([Owner store_running_false] ++ (Work <$> wakes1)
             ++ [Owner store_interrupted_true] ++ (Work <$> wakes2)
             ++ [Owner notify] ++ (Work <$> wakes3)) w = Some w' ∧
    RunningFlag w' = Some false ∧
    calls_of w' ≤ calls_of w + pending (pc_of w) ∧
    (4 ≤ length wakes3 → pc_of w' = details.Returned).
Proof.
  intros Hw. destruct (well_formed_view w Hw) as [v Hv].
  set (rest := (Work <$> wakes2) ++ [Owner notify] ++ (Work <$> wakes3)).
  destruct (run_view ([Owner store_running_false] ++ (Work <$> wakes1)
                      ++ [Owner store_interrupted_true] ++ rest) w v Hw Hv)
    as (w' & Hrun & _ & _ & _ & Hv').
  set (policy := policy_of w) in *.
  apply view_of_Some in Hv as (_ & _ & Hp & Hc).
  apply view_of_Some in Hv' as (Hr' & _ & Hp' & Hc').
  exists w'. split; [exact Hrun|].
  change ([Owner store_running_false] ++ ?l) with (Owner store_running_false :: l)
    in Hr', Hp', Hc'.
  rewrite view_run_cons in Hr', Hp', Hc'.
  set (v1 := view_exec policy (Owner store_running_false) v) in *.
  assert (running v1 = false) as Hr1 by done.
  split; [|split].
  - rewrite Hr'. f_equal. by apply view_run_stopped.
  - rewrite Hc', Hc, Hp.
    pose proof (view_run_stopped_pending policy
      ((Work <$> wakes1) ++ [Owner store_interrupted_true] ++ rest) v1 Hr1) as Hle.
    change (count v1) with (count v) in Hle.
    change (point v1) with (point v) in Hle. lia.
  - intros Hlen. rewrite Hp'. rewrite view_run_app.
    set (v2 := view_run policy (Work <$> wakes1) v1).
    change ([Owner store_interrupted_true] ++ rest)
      with (Owner store_interrupted_true :: rest).
    rewrite view_run_cons.
    set (v3 := view_exec policy (Owner store_interrupted_true) v2).
    assert (draining v3) as Hd.
    { split; [|by left]. apply (view_run_stopped policy (Work <$> wakes1) v1 Hr1). }
    destruct (view_run_draining policy rest v3 Hd) as (_ & Hdist & _).
    unfold rest in Hdist at 2.
    rewrite !transitions_app, !transitions_work in Hdist. simpl in Hdist.
    assert (distance (point v3) ≤ 4) by (destruct (point v3); simpl; lia).
    destruct (point (view_run policy rest v3)); simpl in *; try done; lia.
Qed.

End Destructor.

(** ** The unit tests

    The counts the two tests expect, on the schedules in which every wait
    of the worker lasts its full interval unless [interrupt()] ends it. *)

Example InterruptDoesNothing_counts :
  calls_of (after (full_period ++ full_period ++ begin_wait)
              (test_world 1000 false)) = 2 ∧
  calls_of (after (full_period ++ full_period ++ begin_wait ++ interrupted_wait)
              (test_world 1000 false)) = 2 ∧
  details.captured (worker (after InterruptDoesNothing (test_world 1000 false))) = 4 ∧
  ∃ w', destructor None [timeout; timeout; timeout; timeout]
          (after InterruptDoesNothing (test_world 1000 false))
        = Some (Returns tt, w') ∧
    details.captured (worker w') = 4 ∧ pc_of w' = details.Returned.
Proof. vm_compute. repeat split. eexists. repeat split. Qed.

Example InterruptDoesSomething_counts :
  calls_of (after (full_period ++ full_period ++ full_period ++ full_period
                   ++ full_period ++ begin_wait) (test_world 500 true)) = 5 ∧
  calls_of (after (full_period ++ full_period ++ full_period ++ full_period
                   ++ full_period ++ begin_wait ++ interrupted_wait)
              (test_world 500 true)) = 6 ∧
  details.captured (worker (after InterruptDoesSomething (test_world 500 true))) = 10 ∧
  ∃ w', destructor None [timeout; timeout; timeout; timeout]
          (after InterruptDoesSomething (test_world 500 true))
        = Some (Returns tt, w') ∧
    details.captured (worker w') = 10 ∧ pc_of w' = details.Returned.
Proof. vm_compute. repeat split. eexists. repeat split. Qed.

(** Discharges [well_formed] and similar side conditions on a concrete
    world by evaluation. *)
Ltac evaluate :=
  repeat split; vm_compute; first [reflexivity | discriminate | eauto | lia].

(** * The properties of the specification *)

(** C5. [stop()] establishes [RunningFlag = false] and
    [InterruptFlag = true] and notifies the wake signal once; it leaves the
    worker as it is, whether it has returned or not; and a second [stop()]
    leaves every atomic flag as the first one left it. *)
Theorem stop_postcondition_idempotent {U : Type} (w : world U) :
  well_formed w →
  RunningFlag (stop w) = Some false ∧
  InterruptFlag (stop w) = Some true ∧
  WakeSignal (stop w) = S <$> WakeSignal w ∧
  worker (stop w) = worker w ∧
  atomic_bools (mem (stop (stop w))) = atomic_bools (mem (stop w)) ∧
  RunningFlag (stop (stop w)) = RunningFlag (stop w) ∧
  InterruptFlag (stop (stop w)) = InterruptFlag (stop w).
Proof.
  intros Hw. destruct (well_formed_view w Hw) as [v Hv].
  destruct (stop_view w v Hw Hv) as [Hw1 Hv1].
  destruct (stop_view _ _ Hw1 Hv1) as [Hw2 Hv2].
  apply view_of_Some in Hv1 as (Hr1 & Hi1 & _).
  apply view_of_Some in Hv2 as (Hr2 & Hi2 & _). simpl in *.
  split; [exact Hr1|]. split; [exact Hi1|].
  split; [by apply stop_signal|]. split; [reflexivity|].
  split; [|by rewrite Hr1, Hr2, Hi1, Hi2].
  unfold stop, store; simpl. apply map_eq; intros p.
  rewrite !lookup_insert. repeat case_decide; congruence.
Qed.

Lemma stop_postcondition_idempotent_witness :
  well_formed (test_world 1000 false) ∧
  RunningFlag (stop (test_world 1000 false)) = Some false ∧
  InterruptFlag (stop (test_world 1000 false)) = Some true ∧
  WakeSignal (stop (stop (test_world 1000 false))) = Some 2.
Proof.
  assert (well_formed (test_world 1000 false)) as Hw by evaluate.
  destruct (stop_postcondition_idempotent (test_world 1000 false) Hw)
    as (Hr & Hi & _).
  split; [exact Hw|]. split; [exact Hr|]. split; [exact Hi|]. reflexivity.
Defined.

(** C6. [interrupt()] sets [InterruptFlag] and notifies the wake signal
    once; when the flag is already set, no atomic flag changes: only the
    notification is repeated. *)
Theorem interrupt_postcondition_idempotent {U : Type} (w : world U) :
  well_formed w →
  InterruptFlag (interrupt w) = Some true ∧
  WakeSignal (interrupt w) = S <$> WakeSignal w ∧
  worker (interrupt w) = worker w ∧
  (InterruptFlag w = Some true →
     atomic_bools (mem (interrupt w)) = atomic_bools (mem w)) ∧
  atomic_bools (mem (interrupt (interrupt w))) = atomic_bools (mem (interrupt w)) ∧
  WakeSignal (interrupt (interrupt w)) = S <$> WakeSignal (interrupt w).
Proof.
  intros Hw. destruct (well_formed_view w Hw) as [v Hv].
  destruct (interrupt_view w v Hw Hv) as [Hw1 Hv1].
  apply view_of_Some in Hv1 as (_ & Hi1 & _). simpl in *.
  split; [exact Hi1|]. split; [by apply interrupt_signal|].
  split; [reflexivity|]. split; [|split].
  - intros Hi. unfold interrupt; simpl.
    change (atomic_bools (store (is_interrupted_ptr (handle w)) true (mem w))
            = atomic_bools (mem w)).
    by rewrite (store_same _ _ _ Hi).
  - unfold interrupt; simpl. by rewrite insert_insert_eq.
  - by apply interrupt_signal.
Qed.

Lemma interrupt_postcondition_idempotent_witness :
  well_formed (test_world 500 true) ∧
  InterruptFlag (interrupt (test_world 500 true)) = Some true ∧
  WakeSignal (interrupt (test_world 500 true)) = Some 1.
Proof.
  assert (well_formed (test_world 500 true)) as Hw by evaluate.
  destruct (interrupt_postcondition_idempotent (test_world 500 true) Hw)
    as (Hi & Hn & _).
  split; [exact Hw|]. split; [exact Hi|]. exact Hn.
Defined.


(** C10. [interrupt()] writes [InterruptFlag] and nothing else that the
    worker reads: [RunningFlag] and every other atomic boolean of the heap
    keep their value, the handle and the worker (the functor with its
    interval, policy flag and callback, the program point, the invocation
    count) are unchanged.  After [stop()], [interrupt()] leaves
    [RunningFlag = false], it stays false in every continuation, and a
    worker that has returned stays returned. *)
Theorem interrupt_frame {U : Type} (w : world U) :
  well_formed w →
  RunningFlag (interrupt w) = RunningFlag w ∧
  (∀ p, p ≠ is_interrupted_ptr (handle w) →
        load p (mem (interrupt w)) = load p (mem w)) ∧
  handle (interrupt w) = handle w ∧
  worker (interrupt w) = worker w ∧
  details.interval (functor_of (interrupt w)) = details.interval (functor_of w) ∧
  details.execute_if_interrupted (functor_of (interrupt w))
    = details.execute_if_interrupted (functor_of w) ∧
  details.fn (functor_of (interrupt w)) = details.fn (functor_of w) ∧
  RunningFlag (interrupt (stop w)) = Some false ∧
  (∀ sched, ∃ w', run sched (interrupt (stop w)) = Some w' ∧
     RunningFlag w' = Some false ∧
     (pc_of w = details.Returned →
        pc_of w' = details.Returned ∧ calls_of w' = calls_of w)).
Proof.
  intros Hw. destruct (well_formed_view w Hw) as [v Hv].
  destruct (interrupt_view w v Hw Hv) as [Hw1 Hv1].
  destruct (stop_view w v Hw Hv) as [Hw2 Hv2].
  destruct (interrupt_view _ _ Hw2 Hv2) as [Hw3 Hv3]. simpl in Hv3.
  pose proof Hv as (Hr & _ & Hp & Hc)%view_of_Some.
  split; [|split].
  { apply view_of_Some in Hv1 as (Hr1 & _). simpl in Hr1. congruence. }
  { intros p Hp'. unfold interrupt; simpl.
    rewrite load_notify_one. by apply load_store_ne. }
  do 5 (split; [reflexivity|]). split.
  { by apply view_of_Some in Hv3 as (Hr3 & _). }
  intros sched.
  destruct (run_view sched _ _ Hw3 Hv3) as (w' & Hrun & Hw' & _ & _ & Hv').
  exists w'. split; [exact Hrun|].
  apply view_of_Some in Hv' as (Hr' & _ & Hp' & Hc').
  split.
  - rewrite Hr'. f_equal. by apply view_run_stopped.
  - intros Hret. rewrite Hp', Hc'.
    destruct (view_run_returned (policy_of (interrupt (stop w))) sched
                (View false true (point v) (count v))) as [-> ->].
    + simpl. congruence.
    + simpl. auto.
Qed.

Lemma interrupt_frame_witness :
  well_formed (test_world 1000 false) ∧
  RunningFlag (interrupt (test_world 1000 false)) = Some true ∧
  RunningFlag (interrupt (stop (test_world 1000 false))) = Some false.
Proof.
  assert (well_formed (test_world 1000 false)) as Hw by evaluate.
  destruct (interrupt_frame (test_world 1000 false) Hw) as (Hr & _ & _ & _ & _ & _ & _ & Hs & _).
  split; [exact Hw|]. split; [|exact Hs]. rewrite Hr. reflexivity.
Defined.

(** C8. For every interval, policy flag, callback (and whatever the heap
    holds already), the constructor leaves [RunningFlag = true] and
    [InterruptFlag = false] in two distinct new objects shared by the handle
    and the functor, a wake signal that was never notified, and a joinable
    worker that has executed nothing.  The objects that existed before are
    untouched.  The first transition of the worker enters the wait, and in
    every execution an invocation of the callback is preceded by the entry
    into the wait. *)
Theorem construct_initial_state {U : Type} (interval : Z) (policy : bool)
    (fn : U → U) (u : U) (h : heap) :
  let w := construct interval policy fn u h in
  RunningFlag w = Some true ∧
  InterruptFlag w = Some false ∧
  WakeSignal w = Some 0 ∧
  well_formed w ∧
  load (is_running_ptr (handle w)) h = None ∧
  load (is_interrupted_ptr (handle w)) h = None ∧
  (∀ p b, load p h = Some b → load p (mem w) = Some b) ∧
  t_joinable (handle w) = true ∧
  worker w = details.Thread
               (details.RepeaterFunctor (is_running_ptr (handle w))
                  (is_interrupted_ptr (handle w)) (cv_ptr (handle w))
                  interval policy fn)
               details.LoopTop u 0 ∧
  (∀ k, ∃ w1, worker_step k w = Some w1 ∧
     pc_of w1 = details.WaitPred ∧ calls_of w1 = 0) ∧
  (∀ sched w', run sched w = Some w' → 0 < calls_of w' →
     ∃ sched1 sched2 w1, sched = sched1 ++ sched2 ∧
       run sched1 w = Some w1 ∧
       pc_of w1 = details.WaitPred ∧ calls_of w1 = 0).
Proof.
  intros w.
  pose proof (construct_well_formed interval policy fn u h) as Hw.
  pose proof (construct_view interval policy fn u h) as Hv.
  fold w in Hw, Hv.
  pose proof Hv as (Hr & Hi & Hp & Hc)%view_of_Some. simpl in *.
  assert (fresh (dom (atomic_bools h)) ∉ dom (atomic_bools h)) as Hf1
    by apply is_fresh.
  assert (is_interrupted_ptr (handle w) ∉ dom (atomic_bools h)) as Hf2.
  { pose proof (is_fresh
      (dom (<[fresh (dom (atomic_bools h)):=true]> (atomic_bools h)))) as Hq.
    change (is_interrupted_ptr (handle w)
              ∉ dom (<[fresh (dom (atomic_bools h)):=true]> (atomic_bools h)))
      in Hq.
    rewrite dom_insert_L in Hq. set_solver. }
  split; [exact Hr|]. split; [exact Hi|].
  split; [apply lookup_insert_eq|]. split; [exact Hw|].
  split; [by apply not_elem_of_dom|]. split; [by apply not_elem_of_dom|].
  split.
  { intros p b Hpb. unfold load in *. subst w; simpl in *.
    assert (p ∈ dom (atomic_bools h)) as Hin by (apply elem_of_dom; eauto).
    rewrite !lookup_insert_ne; [done|congruence|congruence]. }
  split; [reflexivity|]. split; [reflexivity|]. split.
  - intros k. destruct (exec_view (Work k) w _ Hw Hv)
      as (w1 & Hs & _ & _ & _ & Hv1).
    exists w1. split; [exact Hs|].
    by apply view_of_Some in Hv1 as (_ & _ & -> & ->).
  - intros sched w' Hrun Hpos.
    destruct (run_view sched w _ Hw Hv) as (w'' & Hrun' & _ & _ & _ & Hv').
    rewrite Hrun in Hrun'. injection Hrun' as <-.
    apply view_of_Some in Hv' as (_ & _ & _ & Hc').
    destruct (view_run_waits_first (policy_of w) sched
                (View true false details.LoopTop 0))
      as (s1 & s2 & -> & Hp1 & Hc1); [done|simpl; lia|].
    destruct (run_view s1 w _ Hw Hv) as (w1 & Hrun1 & _ & _ & _ & Hv1).
    exists s1, s2, w1. split; [done|]. split; [exact Hrun1|].
    apply view_of_Some in Hv1 as (_ & _ & -> & ->). done.
Qed.

(** C2. Once the worker is to read [RunningFlag = false] after a wake
    (line 113) or at the loop condition (line 104), no schedule, whatever
    the owner and the worker do next, invokes the callback again; the flag
    stays false, and the worker has returned as soon as it has made two
    transitions. *)
Theorem no_callback_after_stop_observed {U : Type} (w : world U) (b : bool)
    (sched : list action) :
  well_formed w →
  pc_of w = details.Woken b ∨ pc_of w = details.LoopTop →
  RunningFlag w = Some false →
  ∃ w', run sched w = Some w' ∧
    calls_of w' = calls_of w ∧
    RunningFlag w' = Some false ∧
    (2 ≤ transitions sched → pc_of w' = details.Returned).
Proof.
  intros Hw Hp Hr. destruct (well_formed_view w Hw) as [v Hv].
  destruct (run_view sched w v Hw Hv) as (w' & Hrun & _ & _ & _ & Hv').
  apply view_of_Some in Hv as (Hr0 & _ & Hp0 & Hc0).
  apply view_of_Some in Hv' as (Hr' & _ & Hp' & Hc').
  assert (running v = false) as Hrv by congruence.
  assert (leaving (point v) ∧ distance (point v) ≤ 2) as [Hl Hd].
  { rewrite <- Hp0. destruct Hp as [-> | ->]; simpl; auto. }
  destruct (view_run_leaving (policy_of w) sched v Hrv Hl)
    as (Hr1 & Hl1 & Hc1 & Hd1).
  exists w'. split; [exact Hrun|]. split; [congruence|].
  split; [congruence|].
  intros Htr. rewrite Hp'.
  destruct (point (view_run (policy_of w) sched v)); simpl in *; try done; lia.
Qed.

Lemma no_callback_after_stop_observed_witness :
  pc_of (stop (after timed_wait (test_world 1000 false))) = details.Woken false ∧
  ∃ w', run [Owner store_interrupted_true; Work timeout; Owner notify;
             Work timeout; Work timeout]
          (stop (after timed_wait (test_world 1000 false))) = Some w' ∧
    calls_of w' = 0 ∧ pc_of w' = details.Returned.
Proof.
  split; [reflexivity|].
  destruct (no_callback_after_stop_observed
              (stop (after timed_wait (test_world 1000 false))) false
              [Owner store_interrupted_true; Work timeout; Owner notify;
               Work timeout; Work timeout])
    as (w' & Hrun & Hc & _ & Hp); [evaluate | by left | evaluate |].
  exists w'. split; [exact Hrun|]. split; [exact Hc|]. apply Hp. simpl. lia.
Defined.

(** C3. [RunningFlag] is true after construction, and along every
    schedule of statements of the owner (those of [interrupt()], [stop()]
    and the destructor) and transitions of the worker its successive
    values are some [true]s, at least one, followed by [false]s only: it
    goes from true to false at most once and never back. *)
Theorem running_flag_monotone {U : Type} (interval : Z) (policy : bool)
    (fn : U → U) (u : U) (h : heap) (sched : list action) :
  ∃ n m, S n + m = S (length sched) ∧
    RunningFlag <$> visited sched (construct interval policy fn u h)
    = replicate (S n) (Some true) ++ replicate m (Some false).
Proof.
  apply visited_monotone.
  - apply construct_well_formed.
  - by pose proof (construct_view interval policy fn u h)
      as (Hr & _)%view_of_Some.
Qed.

(** C9. Within one iteration of the loop, that is along a schedule that
    does not pass through the loop condition before its last step, the
    callback is invoked at most once, whatever the flags, the policy and
    the statements of the owner. *)
Theorem at_most_one_callback_per_iteration {U : Type} (w : world U)
    (sched : list action) :
  well_formed w →
  Forall (λ x, pc_of x ≠ details.LoopTop) (visited (removelast sched) w) →
  ∃ w', run sched w = Some w' ∧ calls_of w' ≤ calls_of w + 1.
Proof.
  intros Hw Hall.
  destruct (run_within_iteration sched w Hw Hall) as (w' & Hrun & Hle).
  exists w'. split; [exact Hrun|].
  assert (pending (pc_of w) ≤ 1) by (destruct (pc_of w); simpl; lia). lia.
Qed.

Lemma at_most_one_callback_per_iteration_witness :
  pc_of (after [Work timeout] (test_world 500 true)) = details.WaitPred ∧
  ∃ w', run (timed_wait ++ [Work timeout; Work timeout])
          (after [Work timeout] (test_world 500 true)) = Some w' ∧
    calls_of w' ≤ 0 + 1.
Proof.
  split; [reflexivity|].
  apply (at_most_one_callback_per_iteration
           (after [Work timeout] (test_world 500 true))
           (timed_wait ++ [Work timeout; Work timeout])).
  - evaluate.
  - vm_compute. repeat constructor; discriminate.
Defined.

(** C1. Let [wait_for] return [b] in a transition of the worker, and let
    the worker then read [RunningFlag = true] at line 113.  [b] is false
    exactly when the wait timed out with [InterruptFlag] still false, and
    true exactly when [InterruptFlag] was set.  Whatever the owner does in
    between, the iteration reaches line 122 having invoked the callback
    once if [b] is false or [execute_if_interrupted] is true, and not at
    all if [b] is true and [execute_if_interrupted] is false.  Invoked
    once: the state captured by the callback is [fn] applied to what it
    was; not invoked: that state is what it was. *)
Theorem callback_iff_timeout_or_policy {U : Type} (w w1 w2 : world U)
    (k k1 k2 : cv_status) (o1 o2 : list owner_stmt) (b : bool) :
  well_formed w →
  worker_step k w = Some w1 →
  pc_of w1 = details.Woken b →
  run (Owner <$> o1) w1 = Some w2 →
  RunningFlag w2 = Some true →
  (b = false ↔ pc_of w = details.WaitTimedOut ∧ InterruptFlag w = Some false) ∧
  (b = true ↔ InterruptFlag w = Some true) ∧
  ∃ w3, run ([Work k1] ++ (Owner <$> o2) ++ [Work k2]) w2 = Some w3 ∧
    pc_of w3 = details.Reset ∧
    (calls_of w3 = S (calls_of w) ↔
       b = false ∨ (b = true ∧ policy_of w = true)) ∧
    (calls_of w3 = calls_of w ↔ b = true ∧ policy_of w = false) ∧
    (b = false ∨ (b = true ∧ policy_of w = true) →
       details.captured (worker w3)
       = details.fn (functor_of w) (details.captured (worker w))) ∧
    (b = true ∧ policy_of w = false →
       details.captured (worker w3) = details.captured (worker w)).
Proof.
  intros Hw Hstep Hpc Hrun1 Hr2.
  destruct (well_formed_view w Hw) as [v Hv].
  destruct (exec_view (Work k) w _ Hw Hv) as (w1' & Hs & Hw1 & _ & Hf1 & Hv1).
  simpl in Hs. rewrite Hstep in Hs. injection Hs as <-.
  destruct (run_view (Owner <$> o1) w1 _ Hw1 Hv1)
    as (w2' & Hrun1' & Hw2 & _ & Hf2 & Hv2).
  rewrite Hrun1 in Hrun1'. injection Hrun1' as <-.
  destruct (run_view ([Work k1] ++ (Owner <$> o2) ++ [Work k2]) w2 _ Hw2 Hv2)
    as (w3 & Hrun3 & _ & _ & _ & Hv3).
  rewrite (policy_of_functor _ _ Hf2), !(policy_of_functor _ _ Hf1) in Hv3.
  rewrite (policy_of_functor _ _ Hf1) in Hv2.
  set (policy := policy_of w) in *.
  set (v1 := view_exec policy (Work k) v) in *.
  set (v2 := view_run policy (Owner <$> o1) v1) in *.
  rewrite !view_run_app in Hv3.
  set (v3 := view_run policy [Work k1] v2) in *.
  set (v4 := view_run policy (Owner <$> o2) v3) in *.
  set (v5 := view_run policy [Work k2] v4) in *.
  apply view_of_Some in Hv as (_ & Hi & Hp & Hc).
  apply view_of_Some in Hv1 as (_ & _ & Hp1 & Hc1).
  apply view_of_Some in Hv2 as (Hr2' & _).
  apply view_of_Some in Hv3 as (_ & _ & Hp5 & Hc5).
  destruct (view_run_owner policy o1 v1) as (Hq2 & Hn2 & _). fold v2 in Hq2, Hn2.
  destruct (view_run_owner policy o2 v3) as (Hq4 & Hn4 & _). fold v4 in Hq4, Hn4.
  assert (point v1 = details.Woken b) as Hpt1 by congruence.
  assert (running v2 = true) as Hrun2 by congruence.
  assert (point v3 = details.Decide b ∧ count v3 = count v2) as [Hpt3 Hct3].
  { subst v3. simpl. rewrite Hq2, Hpt1, Hrun2. simpl. split; [done|lia]. }
  assert (point v5 = details.Reset ∧
          count v5 = count v4 + (if negb b || policy then 1 else 0)) as [Hpt5 Hct5].
  { subst v5. simpl. rewrite Hq4, Hpt3. done. }
  assert (count v1 = count v ∧
          (b = false ↔ point v = details.WaitTimedOut ∧ interrupted v = false) ∧
          (b = true ↔ interrupted v = true)) as (Hct1 & Hb1 & Hb2).
  { subst v1. simpl in *. destruct v as [r i l n]; simpl in *.
    destruct l, r, i, k, b; simpl in *; try discriminate;
      (split; [lia|]); split; split; try done;
      try (intros [? ?]; discriminate). }
  rewrite Hi, Hp, Hc.
  split; [|split].
  - rewrite Hb1. split; intros [? ?]; split; congruence.
  - rewrite Hb2. split; congruence.
  - assert (calls_of w3
            = count v + (if negb b || policy then 1 else 0)) as Hcalls
      by (by rewrite Hc5, Hct5, Hn4, Hct3, Hn2, Hct1).
    assert (run ([Work k] ++ (Owner <$> o1)
                 ++ [Work k1] ++ (Owner <$> o2) ++ [Work k2]) w = Some w3)
      as Hwhole.
    { rewrite run_app. cbn [run exec]. rewrite Hstep. cbn [mbind option_bind].
      rewrite run_app, Hrun1. exact Hrun3. }
    destruct (run_captured _ _ _ Hwhole) as [_ Hcap].
    rewrite Hcalls, <- Hc in Hcap.
    exists w3. split; [exact Hrun3|]. split; [congruence|].
    rewrite Hcalls, Hcap.
    destruct b, policy; simpl;
      replace (calls_of w + 1 - calls_of w) with 1 by lia;
      replace (calls_of w + 0 - calls_of w) with 0 by lia; simpl;
      (split; [split; [try (intros; lia); try (intros; (by left) || (by right; split))
                      |try (intros; lia); try (intros [?|[? ?]]; congruence)]|]);
      (split; [split; [try (intros; lia); try done
                      |try (intros; lia); try (intros [? ?]; congruence)]|]);
      (split; [try done; try (intros [?|[? ?]]; congruence)
              |try done; try (intros [? ?]; congruence)]).
Qed.

Lemma callback_iff_timeout_or_policy_witness :
  pc_of (after [Work timeout; Work timeout; Work timeout] (test_world 1000 false))
    = details.WaitTimedOut ∧
  ∃ w3, run ([Work timeout] ++ (Owner <$> interrupt_body) ++ [Work timeout])
          (after timed_wait (test_world 1000 false)) = Some w3 ∧
    pc_of w3 = details.Reset ∧ calls_of w3 = 1 ∧
    details.captured (worker w3) = 1.
Proof.
  split; [reflexivity|].
  destruct (callback_iff_timeout_or_policy
              (after [Work timeout; Work timeout; Work timeout]
                 (test_world 1000 false))
              (after timed_wait (test_world 1000 false))
              (after timed_wait (test_world 1000 false))
              timeout timeout timeout [] interrupt_body false)
    as (_ & _ & w3 & Hrun & Hp & Hc & _ & Hu & _);
    [evaluate | reflexivity | reflexivity | reflexivity | reflexivity |].
  exists w3. split; [exact Hrun|]. split; [exact Hp|].
  split; [apply Hc; by left|]. rewrite Hu; [reflexivity|by left].
Defined.

(** C4 (as amended). When the worker has consumed a wake and reads
    [RunningFlag = true], it first decides and, if it so decides, invokes
    the callback; up to that point its transitions leave [InterruptFlag] as
    the owner left it.  The transition after that (line 122) clears
    [InterruptFlag], whatever the owner did before, and takes the worker
    back to the loop condition; if the owner executes nothing in between,
    the flag is false when the next wait begins. *)
Theorem interrupt_flag_cleared_after_decision {U : Type} (w : world U)
    (b : bool) (o1 o2 : list owner_stmt) (k1 k2 k3 k4 : cv_status) :
  well_formed w →
  pc_of w = details.Woken b →
  RunningFlag w = Some true →
  ∃ w2 w3 w4,
    run ([Work k1] ++ (Owner <$> o1) ++ [Work k2]) w = Some w2 ∧
    pc_of w2 = details.Reset ∧
    calls_of w2 = calls_of w + (if negb b || policy_of w then 1 else 0) ∧
    (store_interrupted_true ∉ o1 → InterruptFlag w2 = InterruptFlag w) ∧
    (store_interrupted_true ∈ o1 → InterruptFlag w2 = Some true) ∧
    run ((Owner <$> o2) ++ [Work k3]) w2 = Some w3 ∧
    pc_of w3 = details.LoopTop ∧
    calls_of w3 = calls_of w2 ∧
    InterruptFlag w3 = Some false ∧
    run [Work k4] w3 = Some w4 ∧
    InterruptFlag w4 = Some false ∧
    (RunningFlag w3 = Some true → pc_of w4 = details.WaitPred).
Proof.
  intros Hw Hpc Hr.
  destruct (well_formed_view w Hw) as [v Hv].
  destruct (run_view ([Work k1] ++ (Owner <$> o1) ++ [Work k2]) w v Hw Hv)
    as (w2 & Hrun2 & Hw2 & _ & Hf2 & Hv2).
  destruct (run_view ((Owner <$> o2) ++ [Work k3]) w2 _ Hw2 Hv2)
    as (w3 & Hrun3 & Hw3 & _ & Hf3 & Hv3).
  destruct (run_view [Work k4] w3 _ Hw3 Hv3) as (w4 & Hrun4 & _ & _ & _ & Hv4).
  rewrite (policy_of_functor _ _ Hf3), !(policy_of_functor _ _ Hf2) in Hv4.
  rewrite (policy_of_functor _ _ Hf2) in Hv3.
  set (policy := policy_of w) in *.
  repeat rewrite view_run_app in Hv2.
  repeat rewrite view_run_app in Hv3.
  repeat rewrite view_run_app in Hv4.
  set (v1 := view_run policy [Work k1] v) in *.
  set (v1' := view_run policy (Owner <$> o1) v1) in *.
  set (v2 := view_run policy [Work k2] v1') in *.
  set (v2' := view_run policy (Owner <$> o2) v2) in *.
  set (v3 := view_run policy [Work k3] v2') in *.
  set (v4 := view_run policy [Work k4] v3) in *.
  apply view_of_Some in Hv as (Hr0 & Hi0 & Hp0 & Hc0).
  apply view_of_Some in Hv2 as (_ & Hi2 & Hp2 & Hc2).
  apply view_of_Some in Hv3 as (Hr3 & Hi3 & Hp3 & Hc3).
  apply view_of_Some in Hv4 as (_ & Hi4 & Hp4 & _).
  destruct (view_run_owner policy o1 v1) as (Hq1 & Hn1 & _ & Hin1 & Hout1).
  fold v1' in Hq1, Hn1, Hin1, Hout1.
  destruct (view_run_owner policy o2 v2) as (Hq2 & Hn2 & _).
  fold v2' in Hq2, Hn2.
  assert (running v = true) as Hrv by congruence.
  assert (point v = details.Woken b) as Hpv by congruence.
  assert (point v1 = details.Decide b ∧ count v1 = count v ∧
          interrupted v1 = interrupted v) as (Hpt1 & Hct1 & Hit1).
  { subst v1. simpl. rewrite Hpv, Hrv. simpl. repeat split; lia. }
  assert (point v2 = details.Reset ∧
          count v2 = count v1' + (if negb b || policy then 1 else 0) ∧
          interrupted v2 = interrupted v1') as (Hpt2 & Hct2 & Hit2).
  { subst v2. simpl. rewrite Hq1, Hpt1. done. }
  assert (point v3 = details.LoopTop ∧ count v3 = count v2' ∧
          interrupted v3 = false) as (Hpt3 & Hct3 & Hit3).
  { subst v3. simpl. rewrite Hq2, Hpt2. simpl. repeat split; lia. }
  assert (interrupted v4 = false ∧
          (running v3 = true → point v4 = details.WaitPred)) as [Hit4 Hpt4].
  { subst v4. change (view_run policy [Work k4] v3)
      with (view_exec policy (Work k4) v3).
    unfold view_exec. cbn [point interrupted running].
    rewrite Hpt3, Hit3. simpl. split; [done|]. by intros ->. }
  exists w2, w3, w4.
  split; [exact Hrun2|]. split; [congruence|].
  split; [rewrite Hc2, Hct2, Hn1, Hct1; congruence|].
  split; [intros Hout; rewrite Hi2, Hi0, Hit2, (Hout1 Hout); congruence|].
  split; [intros Hin; rewrite Hi2, Hit2, (Hin1 Hin); congruence|].
  split; [exact Hrun3|]. split; [congruence|].
  split; [rewrite Hc3, Hct3, Hn2; congruence|].
  split; [congruence|]. split; [exact Hrun4|]. split; [congruence|].
  intros Hr3'. rewrite Hp4. apply Hpt4. congruence.
Qed.

Lemma interrupt_flag_cleared_after_decision_witness :
  pc_of (after (Work timeout :: (Owner <$> interrupt_body) ++ [Work timeout])
           (test_world 500 true)) = details.Woken true ∧
  ∃ w2 w3,
    run [Work timeout; Work timeout]
      (after (Work timeout :: (Owner <$> interrupt_body) ++ [Work timeout])
         (test_world 500 true)) = Some w2 ∧
    calls_of w2 = 1 ∧ InterruptFlag w2 = Some true ∧
    run [Work timeout] w2 = Some w3 ∧ InterruptFlag w3 = Some false.
Proof.
  split; [reflexivity|].
  destruct (interrupt_flag_cleared_after_decision
              (after (Work timeout :: (Owner <$> interrupt_body) ++ [Work timeout])
                 (test_world 500 true))
              true [] [] timeout timeout timeout timeout)
    as (w2 & w3 & w4 & Hrun2 & _ & Hc2 & Hi2 & _ & Hrun3 & _ & _ & Hi3 & _);
    [evaluate | reflexivity | reflexivity |].
  exists w2, w3. split; [exact Hrun2|]. split; [exact Hc2|].
  split; [|split; [exact Hrun3|exact Hi3]].
  rewrite Hi2; [reflexivity|]. apply not_elem_of_nil.
Defined.

(** C4 (as stated) fails.  In [InterruptDoesSomething], [interrupt()]
    arrives during the first wait; the worker wakes with [RunningFlag]
    true.  With no further statement of the owner, [InterruptFlag] is
    still set when the worker is at the decision (line 116) and still set
    when the callback has been invoked; it is cleared only afterwards.
    And when [interrupt()] runs again after the clear, the flag is set
    when the next wait begins. *)
Lemma interrupt_flag_not_cleared_before_decision :
  let woken := after (Work timeout :: (Owner <$> interrupt_body) ++ [Work timeout])
                 (test_world 500 true) in
  pc_of woken = details.Woken true ∧ RunningFlag woken = Some true ∧
  (∃ w1, run [Work timeout] woken = Some w1 ∧
     pc_of w1 = details.Decide true ∧ calls_of w1 = 0 ∧
     InterruptFlag w1 = Some true) ∧
  (∃ w2, run [Work timeout; Work timeout] woken = Some w2 ∧
     pc_of w2 = details.Reset ∧ calls_of w2 = 1 ∧
     InterruptFlag w2 = Some true) ∧
  (∃ w4, run ([Work timeout; Work timeout; Work timeout]
              ++ (Owner <$> interrupt_body) ++ [Work timeout]) woken = Some w4 ∧
     pc_of w4 = details.WaitPred ∧ InterruptFlag w4 = Some true).
Proof.
  cbv zeta. split; [reflexivity|]. split; [reflexivity|].
  split; [|split]; eexists; (split; [reflexivity|]); repeat split.
Qed.

(** C7.  The code does not keep what the statement says when [join()]
    fails.  The handle is destroyed while its thread is joinable and
    [join()] fails with [std::system_error] (35 is
    [resource_deadlock_would_occur], the error of a [join()] called on the
    worker thread itself).  The handler catches the exception and the
    [try] block is left normally, in the state [stop()] made; but the
    thread is still joinable, so the destruction of the member [t] that
    follows calls [std::terminate]: the failure of [join()] ends the
    program instead of being discarded. *)
Lemma destructor_join_failure_terminates :
  let w := after timed_wait (test_world 1000 false) in
  well_formed w ∧
  t_joinable (handle w) = true ∧
  join (Some (system_error 35)) [] (stop w)
  = Some (Throws (system_error 35), stop w) ∧
  try_block stop_call (join (Some (system_error 35)) []) w
  = Some (Returns tt, stop w) ∧
  t_joinable (handle (stop w)) = true ∧
  destructor (Some (system_error 35)) [] w = Some (Terminated, stop w).
Proof.
  cbv zeta. split; [evaluate|]. by vm_compute.
Qed.

(** * Further properties of the code *)

(** X1. A world built by the constructor never faults: along every
    schedule each access of the owner and of the worker goes through a
    pointer that owns its object.  The pointers of the handle and the
    functor (its interval, policy flag and callback) are never changed. *)
Theorem schedules_never_fault {U : Type} (interval : Z) (policy : bool)
    (fn : U → U) (u : U) (h : heap) (sched : list action) :
  ∃ w', run sched (construct interval policy fn u h) = Some w' ∧
    well_formed w' ∧
    handle w' = handle (construct interval policy fn u h) ∧
    functor_of w' = functor_of (construct interval policy fn u h) ∧
    details.interval (functor_of w') = interval ∧
    details.execute_if_interrupted (functor_of w') = policy ∧
    details.fn (functor_of w') = fn.
Proof.
  destruct (run_view sched _ _ (construct_well_formed interval policy fn u h)
              (construct_view interval policy fn u h))
    as (w' & Hrun & Hw' & Hh & Hf & _).
  exists w'. rewrite Hf. repeat (split; [done|]). done.
Qed.

(** X2. Whatever its waits return, the worker changes nothing on the
    shared objects except that it may clear [InterruptFlag]: [RunningFlag],
    the notifications of the wake signal and every other atomic boolean of
    the heap are as before, and [InterruptFlag] is as before or false. *)
Theorem worker_only_clears_interrupt_flag {U : Type} (w : world U)
    (wakes : list cv_status) :
  well_formed w →
  ∃ w', run_worker wakes w = Some w' ∧
    handle w' = handle w ∧
    RunningFlag w' = RunningFlag w ∧
    WakeSignal w' = WakeSignal w ∧
    (InterruptFlag w' = InterruptFlag w ∨ InterruptFlag w' = Some false) ∧
    (∀ p, p ≠ is_interrupted_ptr (handle w) →
          load p (mem w') = load p (mem w)).
Proof.
  revert w. unfold run_worker.
  induction wakes as [|k wakes IH]; intros w Hw.
  - exists w. simpl. repeat (split; [done|]). split; [by left|done].
  - destruct (well_formed_view w Hw) as [v Hv].
    destruct (exec_view (Work k) w v Hw Hv) as (w1 & Hs & Hw1 & Hh1 & _ & _).
    destruct (IH w1 Hw1) as (w' & Hrun & Hh' & Hr' & Hn' & Hi' & Hfr').
    exists w'. cbn [fmap list_fmap run]. rewrite Hs. simpl.
    split; [exact Hrun|]. split; [congruence|].
    destruct (worker_step_mem k w w1 Hs) as [_ Hmem].
    destruct Hw as (_ & Hip & _ & Hne & _).
    unfold RunningFlag, InterruptFlag, WakeSignal in *. rewrite Hh1 in *.
    rewrite Hip in Hmem.
    destruct Hmem as [Hmem|Hmem]; rewrite Hmem in *.
    + repeat (split; [done|]). done.
    + rewrite notifications_store in Hn'.
      rewrite load_store_ne in Hr' by congruence.
      split; [done|]. split; [done|]. split.
      * right. destruct Hi' as [Hi'|Hi']; [|done].
        by rewrite Hi', load_store_eq.
      * intros p Hp. rewrite (Hfr' p Hp). by apply load_store_ne.
Qed.

Lemma worker_only_clears_interrupt_flag_witness :
  ∃ w', run_worker [timeout; timeout; timeout; timeout; timeout; timeout; timeout]
          (interrupt (test_world 500 true)) = Some w' ∧
    RunningFlag w' = Some true ∧ WakeSignal w' = Some 1 ∧
    InterruptFlag w' = Some false.
Proof.
  destruct (worker_only_clears_interrupt_flag (interrupt (test_world 500 true))
              [timeout; timeout; timeout; timeout; timeout; timeout; timeout])
    as (w' & Hrun & _ & Hr & Hn & _); [evaluate|].
  exists w'. split; [exact Hrun|]. split; [by rewrite Hr|].
  split; [by rewrite Hn|].
  revert Hrun. vm_compute. by intros [= <-].
Defined.

(** X3. Along every schedule the number of invocations never decreases,
    and the state captured by the callback is the callback applied, once
    per invocation, to the captured state at the start: nothing else
    touches it. *)
Theorem captured_state_counts_invocations {U : Type} (w w' : world U)
    (sched : list action) :
  run sched w = Some w' →
  calls_of w ≤ calls_of w' ∧
  details.captured (worker w')
  = Nat.iter (calls_of w' - calls_of w) (details.fn (functor_of w))
      (details.captured (worker w)).
Proof. apply run_captured. Qed.

Lemma captured_state_counts_invocations_witness :
  details.captured (worker (after InterruptDoesSomething (test_world 500 true)))
  = Nat.iter 10 S 0.
Proof.
  destruct (captured_state_counts_invocations (test_world 500 true)
              (after InterruptDoesSomething (test_world 500 true))
              InterruptDoesSomething) as [_ Hcap]; [by vm_compute|].
  rewrite Hcap. by vm_compute.
Defined.

Section PeriodFacts.
Implicit Types (v : view) (policy : bool).

Lemma period_view policy (p : period) (n : nat) :
  view_run policy (period_schedule p) (View true false details.LoopTop n)
  = View true false details.LoopTop (n + expected_count policy [p]).
Proof. destruct p, policy; cbn; f_equal; lia. Qed.

Lemma periods_view policy (ps : list period) (n : nat) :
  view_run policy (periods_schedule ps) (View true false details.LoopTop n)
  = View true false details.LoopTop (n + expected_count policy ps).
Proof.
  revert n. induction ps as [|p ps IH]; intros n.
  - simpl. f_equal. lia.
  - change (periods_schedule (p :: ps))
      with (period_schedule p ++ periods_schedule ps).
    rewrite view_run_app, period_view, IH. f_equal.
    destruct p, policy; simpl; lia.
Qed.

(** Wake-ups without a timeout and without the flag keep the worker in
    its wait. *)
Lemma view_run_spurious policy (n : nat) v :
  interrupted v = false →
  point v = details.WaitPred ∨ point v = details.WaitBlocked →
  let v' := view_run policy (Work <$> replicate n no_timeout) v in
  (point v' = details.WaitPred ∨ point v' = details.WaitBlocked) ∧
  count v' = count v ∧ interrupted v' = false ∧ running v' = running v.
Proof.
  revert v. induction n as [|n IH]; intros v Hi Hp; [by simpl|].
  cbn [replicate fmap list_fmap]. change (list_fmap _ _ ?f ?l) with (f <$> l).
  rewrite view_run_cons.
  destruct (IH (view_exec policy (Work no_timeout) v)) as (Hp' & Hc' & Hi' & Hr').
  { simpl. rewrite Hi. by destruct Hp as [-> | ->]. }
  { simpl. rewrite Hi. destruct Hp as [-> | ->]; simpl; auto. }
  cbv zeta. split; [exact Hp'|]. rewrite Hc', Hi', Hr'. simpl.
  destruct Hp as [-> | ->]; simpl; split; (lia || done).
Qed.

(** With [RunningFlag] false a worker that is not at line 116 does not
    get there. *)
Lemma view_run_no_decision policy sched v :
  running v = false → ¬ deciding (point v) →
  let v' := view_run policy sched v in
  running v' = false ∧ ¬ deciding (point v') ∧ count v' = count v.
Proof.
  revert v. induction sched as [|a sched IH]; intros v Hr Hd; [done|].
  rewrite view_run_cons.
  destruct (IH (view_exec policy a v)) as (Hr' & Hd' & Hc').
  { by apply view_exec_stopped. }
  { destruct a as [[]|k]; simpl; try done.
    rewrite Hr. destruct (point v), (interrupted v), k; simpl in *; auto. }
  cbv zeta. split; [exact Hr'|]. split; [exact Hd'|]. rewrite Hc'.
  destruct a as [[]|k]; simpl; try done.
  destruct (point v); simpl in *; lia.
Qed.

Lemma view_run_owner_running policy (o : list owner_stmt) v :
  store_running_false ∉ o →
  running (view_run policy (Owner <$> o) v) = running v.
Proof.
  revert v. induction o as [|s o IH]; intros v Hout; [done|].
  apply not_elem_of_cons in Hout as [Hne Hout].
  cbn [fmap list_fmap]. change (list_fmap _ _ ?f ?l) with (f <$> l).
  rewrite view_run_cons, (IH _ Hout). by destruct s.
Qed.

End PeriodFacts.

Section InterruptFacts.
Context {U : Type}.
Implicit Types (w : world U).

Lemma interrupts_view (n : nat) w v :
  well_formed w → view_of w = Some v →
  well_formed (Nat.iter (S n) interrupt w) ∧
  view_of (Nat.iter (S n) interrupt w)
  = Some (View (running v) true (point v) (count v)) ∧
  handle (Nat.iter (S n) interrupt w) = handle w ∧
  worker (Nat.iter (S n) interrupt w) = worker w ∧
  atomic_bools (mem (Nat.iter (S n) interrupt w))
  = atomic_bools (mem (interrupt w)) ∧
  WakeSignal (Nat.iter (S n) interrupt w) = (λ c, c + S n) <$> WakeSignal w.
Proof.
  intros Hw Hv. induction n as [|n (Hwn & Hvn & Hhn & Hkn & Hbn & Hsn)].
  - destruct (interrupt_view w v Hw Hv) as [Hw1 Hv1].
    cbn [Nat.iter nat_rect]. repeat (split; [done|]).
    rewrite (interrupt_signal w Hw). destruct (WakeSignal w); simpl; [|done].
    f_equal. lia.
  - change (Nat.iter (S (S n)) interrupt w)
      with (interrupt (Nat.iter (S n) interrupt w)).
    set (wn := Nat.iter (S n) interrupt w) in *. clearbody wn.
    destruct (interrupt_view _ _ Hwn Hvn) as [Hw1 Hv1]. simpl in Hv1.
    split; [exact Hw1|]. split; [exact Hv1|].
    split; [exact Hhn|]. split; [exact Hkn|]. split.
    + rewrite <- Hbn.
      apply view_of_Some in Hvn as (_ & Hi & _). simpl in Hi.
      change (atomic_bools (store (is_interrupted_ptr (handle wn)) true (mem wn))
              = atomic_bools (mem wn)).
      by rewrite (store_same _ _ _ Hi).
    + rewrite (interrupt_signal _ Hwn), Hsn.
      destruct (WakeSignal w); simpl; [|done]. f_equal. lia.
Qed.

End InterruptFacts.

(** X4. From the loop condition, with [RunningFlag] set and
    [InterruptFlag] clear, any sequence of periods, each either a wait
    that lasts the whole interval or a wait ended by [interrupt()], leaves
    the worker at the loop condition with the flags as before; the
    callback has been invoked once per full interval, and once per
    interrupted one exactly when [execute_if_interrupted] is set.  The
    counts expected by both unit tests are instances. *)
Theorem periods_fire_expected_count {U : Type} (w : world U) (ps : list period) :
  well_formed w →
  pc_of w = details.LoopTop →
  RunningFlag w = Some true →
  InterruptFlag w = Some false →
  ∃ w', run (periods_schedule ps) w = Some w' ∧
    calls_of w' = calls_of w + expected_count (policy_of w) ps ∧
    pc_of w' = details.LoopTop ∧
    RunningFlag w' = Some true ∧
    InterruptFlag w' = Some false.
Proof.
  intros Hw Hp Hr Hi.
  assert (view_of w = Some (View true false details.LoopTop (calls_of w))) as Hv
    by (by apply view_of_Some).
  destruct (run_view (periods_schedule ps) w _ Hw Hv)
    as (w' & Hrun & _ & _ & _ & Hv').
  rewrite periods_view in Hv'.
  apply view_of_Some in Hv' as (Hr' & Hi' & Hp' & Hc').
  exists w'. by repeat (split; [done|]).
Qed.

Lemma periods_fire_expected_count_witness :
  (∃ w', run (periods_schedule
                [FullInterval; FullInterval; InterruptedInterval;
                 FullInterval; FullInterval])
           (test_world 1000 false) = Some w' ∧ calls_of w' = 4) ∧
  (∃ w', run (periods_schedule
                [FullInterval; FullInterval; FullInterval; FullInterval;
                 FullInterval; InterruptedInterval; InterruptedInterval;
                 FullInterval; FullInterval; InterruptedInterval])
           (test_world 500 true) = Some w' ∧ calls_of w' = 10).
Proof.
  split.
  - destruct (periods_fire_expected_count (test_world 1000 false)
                [FullInterval; FullInterval; InterruptedInterval;
                 FullInterval; FullInterval])
      as (w' & Hrun & Hc & _); [evaluate | reflexivity..|].
    exists w'. split; [exact Hrun|exact Hc].
  - destruct (periods_fire_expected_count (test_world 500 true)
                [FullInterval; FullInterval; FullInterval; FullInterval;
                 FullInterval; InterruptedInterval; InterruptedInterval;
                 FullInterval; FullInterval; InterruptedInterval])
      as (w' & Hrun & Hc & _); [evaluate | reflexivity..|].
    exists w'. split; [exact Hrun|exact Hc].
Defined.

(** X5. Repeated calls of [interrupt()] coalesce: after [n + 1] calls
    every atomic flag is as after one call, only the notifications add up,
    and no schedule that follows can tell the difference: it leads to the
    same worker (program point, invocations, captured state) and the same
    flags. *)
Theorem interrupts_coalesce {U : Type} (w : world U) (n : nat) :
  well_formed w →
  atomic_bools (mem (Nat.iter (S n) interrupt w))
  = atomic_bools (mem (interrupt w)) ∧
  WakeSignal (Nat.iter (S n) interrupt w) = (λ c, c + S n) <$> WakeSignal w ∧
  ∀ sched, ∃ w1 w2,
    run sched (Nat.iter (S n) interrupt w) = Some w1 ∧
    run sched (interrupt w) = Some w2 ∧
    worker w1 = worker w2 ∧
    RunningFlag w1 = RunningFlag w2 ∧
    InterruptFlag w1 = InterruptFlag w2.
Proof.
  intros Hw. destruct (well_formed_view w Hw) as [v Hv].
  destruct (interrupts_view n w v Hw Hv) as (Hwn & Hvn & _ & Hkn & Hbn & Hsn).
  destruct (interrupt_view w v Hw Hv) as [Hw1 Hv1].
  split; [exact Hbn|]. split; [exact Hsn|]. intros sched.
  destruct (run_view sched _ _ Hwn Hvn) as (w1 & Hrun1 & _ & _ & Hf1 & Hv1').
  destruct (run_view sched _ _ Hw1 Hv1) as (w2 & Hrun2 & _ & _ & Hf2 & Hv2').
  assert (policy_of (Nat.iter (S n) interrupt w) = policy_of (interrupt w)) as Hpol.
  { unfold policy_of, functor_of. by rewrite Hkn. }
  rewrite Hpol in Hv1'.
  apply view_of_Some in Hv1' as (Hr1 & Hi1 & Hp1 & Hc1).
  apply view_of_Some in Hv2' as (Hr2 & Hi2 & Hp2 & Hc2).
  exists w1, w2. split; [exact Hrun1|]. split; [exact Hrun2|].
  split; [|split; congruence].
  destruct (run_captured sched _ _ Hrun1) as [_ Hu1].
  destruct (run_captured sched _ _ Hrun2) as [_ Hu2].
  apply thread_eq.
  - change (functor_of w1 = functor_of w2). rewrite Hf1, Hf2.
    unfold functor_of. by rewrite Hkn.
  - change (pc_of w1 = pc_of w2). congruence.
  - rewrite Hu1, Hu2. unfold functor_of, calls_of in *. rewrite Hkn.
    change (worker (interrupt w)) with (worker w). congruence.
  - change (calls_of w1 = calls_of w2). congruence.
Qed.

Lemma interrupts_coalesce_witness :
  WakeSignal (Nat.iter 3 interrupt (after begin_wait (test_world 500 true)))
  = Some 3 ∧
  ∃ w1 w2,
    run [Work no_timeout; Work timeout; Work timeout; Work timeout]
      (Nat.iter 3 interrupt (after begin_wait (test_world 500 true))) = Some w1 ∧
    run [Work no_timeout; Work timeout; Work timeout; Work timeout]
      (interrupt (after begin_wait (test_world 500 true))) = Some w2 ∧
    worker w1 = worker w2.
Proof.
  destruct (interrupts_coalesce (after begin_wait (test_world 500 true)) 2)
    as (_ & Hn & Hsame); [evaluate|].
  split; [by rewrite Hn|].
  destruct (Hsame [Work no_timeout; Work timeout; Work timeout; Work timeout])
    as (w1 & w2 & Hrun1 & Hrun2 & Hk & _).
  exists w1, w2. split; [exact Hrun1|]. split; [exact Hrun2|exact Hk].
Defined.

(** X6. Spurious wake-ups are harmless: while [InterruptFlag] is clear,
    any number of wake-ups before the interval has elapsed keep the worker
    inside [wait_for]; nothing is invoked and no flag changes. *)
Theorem spurious_wakeups_keep_waiting {U : Type} (w : world U) (n : nat) :
  well_formed w →
  InterruptFlag w = Some false →
  pc_of w = details.WaitPred ∨ pc_of w = details.WaitBlocked →
  ∃ w', run_worker (replicate n no_timeout) w = Some w' ∧
    (pc_of w' = details.WaitPred ∨ pc_of w' = details.WaitBlocked) ∧
    calls_of w' = calls_of w ∧
    InterruptFlag w' = Some false ∧
    RunningFlag w' = RunningFlag w.
Proof.
  intros Hw Hi Hp. destruct (well_formed_view w Hw) as [v Hv].
  destruct (run_view (Work <$> replicate n no_timeout) w v Hw Hv)
    as (w' & Hrun & _ & _ & _ & Hv').
  apply view_of_Some in Hv as (Hr0 & Hi0 & Hp0 & Hc0).
  apply view_of_Some in Hv' as (Hr' & Hi' & Hp' & Hc').
  destruct (view_run_spurious (policy_of w) n v) as (Hq & Hn & Hj & Hk).
  { congruence. } { rewrite <- Hp0. exact Hp. }
  exists w'. split; [exact Hrun|]. rewrite Hp', Hc', Hi', Hr', Hr0.
  split; [exact Hq|]. split; [congruence|]. split; congruence.
Qed.

Lemma spurious_wakeups_keep_waiting_witness :
  pc_of (after begin_wait (test_world 1000 false)) = details.WaitBlocked ∧
  ∃ w', run_worker (replicate 5 no_timeout)
          (after begin_wait (test_world 1000 false)) = Some w' ∧
    calls_of w' = 0.
Proof.
  split; [reflexivity|].
  destruct (spurious_wakeups_keep_waiting
              (after begin_wait (test_world 1000 false)) 5)
    as (w' & Hrun & _ & Hc & _); [evaluate | reflexivity | by right |].
  exists w'. split; [exact Hrun|exact Hc].
Defined.

(** X7. A set [InterruptFlag] always ends the wait as an interrupt.  With
    [RunningFlag] and [InterruptFlag] set and the worker inside
    [wait_for], whatever the blocking wait returns, a timeout included,
    [wait_for] returns true and the iteration reaches line 122 having
    invoked the callback exactly when [execute_if_interrupted] is set: a
    timeout that finds the flag set does not count as a timeout. *)
Theorem pending_interrupt_ends_wait {U : Type} (w : world U)
    (k1 k2 k3 k4 : cv_status) :
  well_formed w →
  RunningFlag w = Some true →
  InterruptFlag w = Some true →
  waiting (pc_of w) →
  ∃ w1 w',
    run_worker (if decide (pc_of w = details.WaitBlocked)
                then [k1; k2] else [k1]) w = Some w1 ∧
    pc_of w1 = details.Woken true ∧
    run_worker [k3; k4] w1 = Some w' ∧
    pc_of w' = details.Reset ∧
    calls_of w' = calls_of w + (if policy_of w then 1 else 0).
Proof.
  intros Hw Hr Hi Hp.
  set (wakes := if decide (pc_of w = details.WaitBlocked)
                then [k1; k2] else [k1]).
  assert (view_of w = Some (View true true (pc_of w) (calls_of w))) as Hv
    by (by apply view_of_Some).
  destruct (run_view (Work <$> wakes) w _ Hw Hv)
    as (w1 & Hrun1 & Hw1 & _ & Hf1 & Hv1).
  destruct (run_view (Work <$> [k3; k4]) w1 _ Hw1 Hv1)
    as (w' & Hrun' & _ & _ & _ & Hv').
  rewrite (policy_of_functor _ _ Hf1) in Hv'.
  apply view_of_Some in Hv1 as (_ & _ & Hp1 & _).
  apply view_of_Some in Hv' as (_ & _ & Hp' & Hc').
  exists w1, w'. split; [exact Hrun1|].
  rewrite Hp1, Hp', Hc'. subst wakes.
  destruct (pc_of w) eqn:Hpc; try done;
    [rewrite decide_False by done | rewrite decide_True by done
    | rewrite decide_False by done];
    (split; [by destruct k1|]); (split; [exact Hrun'|]);
    destruct k1, (policy_of w); simpl; split; (done || lia).
Qed.

Lemma pending_interrupt_ends_wait_witness :
  pc_of (interrupt (after begin_wait (test_world 1000 false)))
    = details.WaitBlocked ∧
  ∃ w', run_worker [timeout; timeout; timeout; timeout]
          (interrupt (after begin_wait (test_world 1000 false))) = Some w' ∧
    pc_of w' = details.Reset ∧ calls_of w' = 0.
Proof.
  split; [reflexivity|].
  destruct (pending_interrupt_ends_wait
              (interrupt (after begin_wait (test_world 1000 false)))
              timeout timeout timeout timeout)
    as (w1 & w' & Hrun1 & _ & Hrun' & Hp & Hc);
    [evaluate | reflexivity | reflexivity | exact I |].
  exists w'. split; [|split; [exact Hp|exact Hc]].
  unfold run_worker in *.
  change (Work <$> [timeout; timeout; timeout; timeout])
    with ((Work <$> [timeout; timeout]) ++ (Work <$> [timeout; timeout])).
  rewrite run_app.
  change (run (Work <$> [timeout; timeout])
            (interrupt (after begin_wait (test_world 1000 false))) = Some w1)
    in Hrun1.
  rewrite Hrun1. exact Hrun'.
Defined.

(** X8. [stop()] always drains the worker.  Let the two stores of
    [stop()] be executed in their order, interleaved in any way with
    transitions of the worker and with other statements of the owner.
    [RunningFlag] is false from then on; the callback is invoked at most
    once more, and only if the worker was already inside an iteration;
    and as soon as the worker has made four transitions after the second
    store it has returned, whatever its waits returned. *)
Theorem stop_always_drains_worker {U : Type} (w : world U)
    (sched1 sched2 : list action) :
  well_formed w →
  ∃ w', run ([Owner store_running_false] ++ sched1
             ++ [Owner store_interrupted_true] ++ sched2) w = Some w' ∧
    RunningFlag w' = Some false ∧
    calls_of w' ≤ calls_of w + pending (pc_of w) ∧
    (4 ≤ transitions sched2 → pc_of w' = details.Returned).
Proof.
  intros Hw. destruct (well_formed_view w Hw) as [v Hv].
  destruct (run_view ([Owner store_running_false] ++ sched1
                      ++ [Owner store_interrupted_true] ++ sched2) w v Hw Hv)
    as (w' & Hrun & _ & _ & _ & Hv').
  set (policy := policy_of w) in *.
  apply view_of_Some in Hv as (_ & _ & Hp & Hc).
  apply view_of_Some in Hv' as (Hr' & _ & Hp' & Hc').
  exists w'. split; [exact Hrun|].
  change ([Owner store_running_false] ++ ?l) with (Owner store_running_false :: l)
    in Hr', Hp', Hc'.
  rewrite view_run_cons in Hr', Hp', Hc'.
  set (v1 := view_exec policy (Owner store_running_false) v) in *.
  assert (running v1 = false) as Hr1 by done.
  split; [|split].
  - rewrite Hr'. f_equal. by apply view_run_stopped.
  - rewrite Hc', Hc, Hp.
    pose proof (view_run_stopped_pending policy
      (sched1 ++ [Owner store_interrupted_true] ++ sched2) v1 Hr1) as Hle.
    change (count v1) with (count v) in Hle.
    change (point v1) with (point v) in Hle. lia.
  - intros Hlen. rewrite Hp'. rewrite view_run_app.
    set (v2 := view_run policy sched1 v1).
    change ([Owner store_interrupted_true] ++ sched2)
      with (Owner store_interrupted_true :: sched2).
    rewrite view_run_cons.
    set (v3 := view_exec policy (Owner store_interrupted_true) v2).
    assert (draining v3) as Hd.
    { split; [|by left]. apply (view_run_stopped policy sched1 v1 Hr1). }
    destruct (view_run_draining policy sched2 v3 Hd) as (_ & Hdist & _).
    assert (distance (point v3) ≤ 4) by (destruct (point v3); simpl; lia).
    destruct (point (view_run policy sched2 v3)); simpl in *; try done; lia.
Qed.

Lemma stop_always_drains_worker_witness :
  pc_of (after (timed_wait ++ [Work timeout]) (test_world 500 true))
    = details.Decide false ∧
  ∃ w', run ([Owner store_running_false] ++ [Work timeout]
             ++ [Owner store_interrupted_true]
             ++ [Work timeout; Owner notify; Work timeout; Work timeout;
                 Work timeout])
          (after (timed_wait ++ [Work timeout]) (test_world 500 true)) = Some w' ∧
    calls_of w' ≤ 0 + 1 ∧ pc_of w' = details.Returned.
Proof.
  split; [reflexivity|].
  destruct (stop_always_drains_worker
              (after (timed_wait ++ [Work timeout]) (test_world 500 true))
              [Work timeout]
              [Work timeout; Owner notify; Work timeout; Work timeout;
               Work timeout])
    as (w' & Hrun & _ & Hc & Hp); [evaluate|].
  exists w'. split; [exact Hrun|]. split; [exact Hc|]. apply Hp. simpl. lia.
Defined.

(** X9. An [interrupt()] that arrives between the decision (line 116) and
    the clearing of the flag (line 122), for instance while the callback
    runs, is lost: the worker clears the flag, starts its next wait and
    blocks, as if [interrupt()] had not been called. *)
Theorem interrupt_after_decision_is_lost {U : Type} (w : world U) (b : bool)
    (o1 o2 : list owner_stmt) (k1 k2 k3 k4 : cv_status) :
  well_formed w →
  pc_of w = details.Decide b →
  RunningFlag w = Some true →
  store_running_false ∉ o1 →
  store_running_false ∉ o2 →
  ∃ w', run ((Owner <$> o1) ++ [Work k1] ++ (Owner <$> o2)
             ++ [Work k2; Work k3; Work k4]) w = Some w' ∧
    pc_of w' = details.WaitBlocked ∧
    InterruptFlag w' = Some false ∧
    calls_of w' = calls_of w + (if negb b || policy_of w then 1 else 0).
Proof.
  intros Hw Hp Hr Ho1 Ho2. destruct (well_formed_view w Hw) as [v Hv].
  destruct (run_view ((Owner <$> o1) ++ [Work k1] ++ (Owner <$> o2)
                      ++ [Work k2; Work k3; Work k4]) w v Hw Hv)
    as (w' & Hrun & _ & _ & _ & Hv').
  set (policy := policy_of w) in *.
  repeat rewrite view_run_app in Hv'.
  set (v1 := view_run policy (Owner <$> o1) v) in *.
  set (v2 := view_run policy [Work k1] v1) in *.
  set (v3 := view_run policy (Owner <$> o2) v2) in *.
  apply view_of_Some in Hv as (Hr0 & _ & Hp0 & Hc0).
  apply view_of_Some in Hv' as (_ & Hi' & Hp' & Hc').
  destruct (view_run_owner policy o1 v) as (Hq1 & Hn1 & _). fold v1 in Hq1, Hn1.
  pose proof (view_run_owner_running policy o1 v Ho1) as Hr1. fold v1 in Hr1.
  destruct (view_run_owner policy o2 v2) as (Hq3 & Hn3 & _). fold v3 in Hq3, Hn3.
  pose proof (view_run_owner_running policy o2 v2 Ho2) as Hr3. fold v3 in Hr3.
  assert (point v2 = details.Reset ∧ running v2 = true ∧
          count v2 = count v + (if negb b || policy then 1 else 0))
    as (Hpt2 & Hrn2 & Hct2).
  { subst v2. change (view_run policy [Work k1] v1)
      with (view_exec policy (Work k1) v1).
    unfold view_exec. cbn [point running count].
    rewrite Hq1, Hn1, Hr1, <- Hp0, Hp. simpl. split; [done|]. split; congruence. }
  exists w'. split; [exact Hrun|]. rewrite Hp', Hi', Hc'.
  change (view_run policy [Work k2; Work k3; Work k4] v3)
    with (view_exec policy (Work k4) (view_exec policy (Work k3)
            (view_exec policy (Work k2) v3))).
  unfold view_exec. cbn [point running count interrupted].
  rewrite Hq3, Hn3, Hr3, Hpt2, Hrn2, Hct2, Hc0. simpl.
  split; [done|]. split; [done|]. lia.
Qed.

Lemma interrupt_after_decision_is_lost_witness :
  pc_of (after (timed_wait ++ [Work timeout]) (test_world 500 true))
    = details.Decide false ∧
  ∃ w', run ((Owner <$> interrupt_body) ++ [Work timeout]
             ++ (Owner <$> interrupt_body)
             ++ [Work timeout; Work timeout; Work timeout])
          (after (timed_wait ++ [Work timeout]) (test_world 500 true)) = Some w' ∧
    pc_of w' = details.WaitBlocked ∧ InterruptFlag w' = Some false.
Proof.
  split; [reflexivity|].
  destruct (interrupt_after_decision_is_lost
              (after (timed_wait ++ [Work timeout]) (test_world 500 true))
              false interrupt_body interrupt_body
              timeout timeout timeout timeout)
    as (w' & Hrun & Hp & Hi & _);
    [evaluate | reflexivity | reflexivity
    | by apply (bool_decide_unpack _) | by apply (bool_decide_unpack _) |].
  exists w'. split; [exact Hrun|]. split; [exact Hp|exact Hi].
Defined.

(** X10. Once [RunningFlag] is false, a worker that is not at the
    decision (line 116) never invokes the callback again, whatever follows:
    [stop()] issued while the worker waits prevents the pending invocation
    even if the interval has elapsed. *)
Theorem stop_before_decision_prevents_callback {U : Type} (w : world U)
    (sched : list action) :
  well_formed w →
  RunningFlag w = Some false →
  ¬ deciding (pc_of w) →
  ∃ w', run sched w = Some w' ∧
    calls_of w' = calls_of w ∧
    RunningFlag w' = Some false.
Proof.
  intros Hw Hr Hd. destruct (well_formed_view w Hw) as [v Hv].
  destruct (run_view sched w v Hw Hv) as (w' & Hrun & _ & _ & _ & Hv').
  apply view_of_Some in Hv as (Hr0 & _ & Hp0 & Hc0).
  apply view_of_Some in Hv' as (Hr' & _ & _ & Hc').
  destruct (view_run_no_decision (policy_of w) sched v) as (Hr1 & _ & Hc1).
  { congruence. } { by rewrite <- Hp0. }
  exists w'. split; [exact Hrun|]. split; congruence.
Qed.

Lemma stop_before_decision_prevents_callback_witness :
  pc_of (stop (after [Work timeout; Work timeout; Work timeout]
                 (test_world 1000 false))) = details.WaitTimedOut ∧
  ∃ w', run (Work <$> [timeout; timeout; timeout; timeout])
          (stop (after [Work timeout; Work timeout; Work timeout]
                   (test_world 1000 false))) = Some w' ∧
    calls_of w' = 0.
Proof.
  split; [reflexivity|].
  destruct (stop_before_decision_prevents_callback
              (stop (after [Work timeout; Work timeout; Work timeout]
                       (test_world 1000 false)))
              (Work <$> [timeout; timeout; timeout; timeout]))
    as (w' & Hrun & Hc & _); [evaluate | reflexivity | by vm_compute |].
  exists w'. split; [exact Hrun|exact Hc].
Defined.

Section JoinFacts.
Context {U : Type}.
Implicit Types (w : world U).

(** A destructor that returns from [join()] returns the world the worker
    left, with the thread no longer joinable and the worker returned. *)
Lemma destructor_returns_inv wakes w w' :
  t_joinable (handle w) = true →
  destructor None wakes w = Some (Returns tt, w') →
  ∃ w1, run_worker wakes (stop w) = Some w1 ∧
    pc_of w1 = details.Returned ∧
    mem w' = mem w1 ∧ worker w' = worker w1 ∧
    is_running_ptr (handle w') = is_running_ptr (handle w1) ∧
    is_interrupted_ptr (handle w') = is_interrupted_ptr (handle w1) ∧
    cv_ptr (handle w') = cv_ptr (handle w1) ∧
    t_joinable (handle w') = false.
Proof.
  intros Hj. rewrite (destructor_joins _ _ Hj).
  destruct (run_worker wakes (stop w)) as [w1|]; [|done].
  destruct (decide (pc_of w1 = details.Returned)) as [Hp|Hp]; [|done].
  intros [= <-]. exists w1. by repeat (split; [done|]).
Qed.

End JoinFacts.

(** X11. When the destructor has returned from [join()], the worker has
    returned and the thread is no longer joinable; from then on no
    schedule invokes the callback or changes the state it captured (the
    counter of the unit tests keeps its value after the handle has gone
    out of scope). *)
Theorem no_callback_after_destruction {U : Type} (w w' : world U)
    (wakes : list cv_status) (sched : list action) :
  well_formed w →
  t_joinable (handle w) = true →
  destructor None wakes w = Some (Returns tt, w') →
  pc_of w' = details.Returned ∧
  t_joinable (handle w') = false ∧
  RunningFlag w' = Some false ∧
  ∃ w'', run sched w' = Some w'' ∧
    pc_of w'' = details.Returned ∧
    calls_of w'' = calls_of w' ∧
    details.captured (worker w'') = details.captured (worker w').
Proof.
  intros Hw Hj Hd.
  destruct (destructor_returns_inv wakes w w' Hj Hd)
    as (w1 & Hrun1 & Hp1 & Hm & Hk & Hrp & Hip & Hcp & Hj').
  destruct (well_formed_view w Hw) as [v Hv].
  destruct (stop_view w v Hw Hv) as [Hws Hvs].
  destruct (run_view (Work <$> wakes) (stop w) _ Hws Hvs)
    as (w1' & Hrun1' & Hw1 & _ & _ & Hv1).
  unfold run_worker in Hrun1. rewrite Hrun1 in Hrun1'. injection Hrun1' as <-.
  assert (well_formed w') as Hw'.
  { unfold well_formed, RunningFlag, InterruptFlag, WakeSignal, functor_of in *.
    by rewrite Hm, Hk, Hrp, Hip, Hcp. }
  assert (RunningFlag w' = Some false) as Hr'.
  { apply view_of_Some in Hv1 as (Hr1 & _).
    unfold RunningFlag in *. rewrite Hm, Hrp, Hr1. f_equal.
    by apply view_run_stopped. }
  assert (pc_of w' = details.Returned) as Hp'.
  { unfold pc_of in *. by rewrite Hk. }
  split; [exact Hp'|]. split; [exact Hj'|]. split; [exact Hr'|].
  destruct (well_formed_view w' Hw') as [v' Hv'].
  destruct (run_view sched w' v' Hw' Hv') as (w'' & Hrun & _ & _ & _ & Hv'').
  apply view_of_Some in Hv' as (_ & _ & Hpv & Hcv).
  apply view_of_Some in Hv'' as (_ & _ & Hp'' & Hc'').
  destruct (view_run_returned (policy_of w') sched v') as [Hq Hn]; [congruence|].
  exists w''. split; [exact Hrun|]. split; [congruence|].
  assert (calls_of w'' = calls_of w') as Hc by congruence.
  split; [exact Hc|].
  destruct (run_captured sched w' w'' Hrun) as [_ ->].
  by rewrite Hc, Nat.sub_diag.
Qed.

Lemma no_callback_after_destruction_witness :
  destructor None [timeout; timeout; timeout; timeout]
    (after InterruptDoesNothing (test_world 1000 false))
  = Some (Returns tt,
          destroyed [timeout; timeout; timeout; timeout]
            (after InterruptDoesNothing (test_world 1000 false))) ∧
  ∃ w'',
    run (Work <$> [timeout; no_timeout; timeout])
      (destroyed [timeout; timeout; timeout; timeout]
         (after InterruptDoesNothing (test_world 1000 false))) = Some w'' ∧
    details.captured (worker w'') = 4.
Proof.
  assert (destructor None [timeout; timeout; timeout; timeout]
            (after InterruptDoesNothing (test_world 1000 false))
          = Some (Returns tt,
                  destroyed [timeout; timeout; timeout; timeout]
                    (after InterruptDoesNothing (test_world 1000 false))))
    as Hd by (by vm_compute).
  split; [exact Hd|].
  destruct (no_callback_after_destruction
              (after InterruptDoesNothing (test_world 1000 false))
              (destroyed [timeout; timeout; timeout; timeout]
                 (after InterruptDoesNothing (test_world 1000 false)))
              [timeout; timeout; timeout; timeout]
              (Work <$> [timeout; no_timeout; timeout]))
    as (_ & _ & _ & w'' & Hrun & _ & _ & Hu);
    [clear; evaluate | by vm_compute | exact Hd |].
  exists w''. split; [exact Hrun|].
  rewrite Hu. by vm_compute.
Defined.

(** X12. When the worker has already returned (after an explicit
    [stop()]), the destructor returns at once: [join()] needs no
    transition of the worker, and nothing is invoked. *)
Theorem destructor_after_worker_returned {U : Type} (w : world U)
    (wakes : list cv_status) :
  well_formed w →
  pc_of w = details.Returned →
  t_joinable (handle w) = true →
  ∃ w', destructor None wakes w = Some (Returns tt, w') ∧
    pc_of w' = details.Returned ∧
    calls_of w' = calls_of w ∧
    details.captured (worker w') = details.captured (worker w) ∧
    t_joinable (handle w') = false.
Proof.
  intros Hw Hp Hj. destruct (well_formed_view w Hw) as [v Hv].
  destruct (stop_view w v Hw Hv) as [Hws Hvs].
  destruct (run_view (Work <$> wakes) (stop w) _ Hws Hvs)
    as (w1 & Hrun1 & _ & _ & _ & Hv1).
  apply view_of_Some in Hv as (_ & _ & Hpv & Hcv).
  apply view_of_Some in Hv1 as (_ & _ & Hp1 & Hc1).
  destruct (view_run_returned (policy_of (stop w)) (Work <$> wakes)
              (View false true (point v) (count v))) as [Hq Hn];
    [simpl; congruence|]. simpl in Hn.
  assert (pc_of w1 = details.Returned) as Hret by congruence.
  rewrite (destructor_joins _ _ Hj). unfold run_worker.
  rewrite Hrun1, (decide_True _ _ Hret).
  eexists. split; [reflexivity|]. split; [exact Hret|].
  assert (calls_of w1 = calls_of w) as Hc by congruence.
  split; [exact Hc|]. split; [|reflexivity].
  destruct (run_captured _ _ _ Hrun1) as [_ Hu].
  change (details.captured (worker w1) = details.captured (worker w)).
  rewrite Hu. change (calls_of (stop w)) with (calls_of w).
  by rewrite Hc, Nat.sub_diag.
Qed.

Lemma destructor_after_worker_returned_witness :
  pc_of (after [Work timeout] (stop (test_world 1000 false))) = details.Returned ∧
  ∃ w', destructor None [] (after [Work timeout] (stop (test_world 1000 false)))
        = Some (Returns tt, w') ∧
    calls_of w' = 0 ∧ t_joinable (handle w') = false.
Proof.
  split; [reflexivity|].
  destruct (destructor_after_worker_returned
              (after [Work timeout] (stop (test_world 1000 false))) [])
    as (w' & Hd & _ & Hc & _ & Hj); [evaluate | reflexivity | reflexivity |].
  exists w'. split; [exact Hd|]. split; [exact Hc|exact Hj].
Defined.

(** X13. Every way the destructor can end, entered with or without an
    earlier [stop()]:
    - whatever the two calls of its [try] block do, in particular if one
      of them throws, no exception leaves it;
    - with a joinable thread the [try] block is [stop()] followed by
      [join()] under the catch-all handler.  If [join()] fails, the
      handler discards the error and the block is left in the state
      [stop()] made, with the thread still joinable: the destruction of
      the member [t] then calls [std::terminate].  Otherwise the
      destructor returns once the worker has returned, which takes the
      worker at most four transitions whatever its waits return;
      [RunningFlag] is false, the thread is no longer joinable, and the
      callback was invoked at most once more;
    - with a thread that is not joinable it is [stop()] alone. *)
Theorem destructor_outcomes {U : Type} (w : world U) (stopped_before : bool) :
  well_formed w →
  let w0 := if stopped_before then stop w else w in
  (∀ (stop_ join_ : call unit) e w',
     destructor_body stop_ join_ w0 ≠ Some (Throws e, w')) ∧
  (∀ fault wakes e w', destructor fault wakes w0 ≠ Some (Throws e, w')) ∧
  (∀ fault wakes, t_joinable (handle w0) = true →
     try_block stop_call (join fault wakes) w0
     = try_catch_all (join fault wakes) (stop w0)) ∧
  (∀ e wakes, t_joinable (handle w0) = true →
     try_block stop_call (join (Some e) wakes) w0 = Some (Returns tt, stop w0) ∧
     destructor (Some e) wakes w0 = Some (Terminated, stop w0)) ∧
  (∀ fault wakes, t_joinable (handle w0) = false →
     destructor fault wakes w0 = Some (Returns tt, stop w0)) ∧
  (∀ wakes, t_joinable (handle w0) = true → 4 ≤ length wakes →
     ∃ w1 w', run_worker wakes (stop w0) = Some w1 ∧
       destructor None wakes w0 = Some (Returns tt, w') ∧
       mem w' = mem w1 ∧ worker w' = worker w1 ∧
       RunningFlag w' = Some false ∧
       pc_of w' = details.Returned ∧
       t_joinable (handle w') = false ∧
       calls_of w' ≤ calls_of w + 1).
Proof.
  intros Hw w0.
  assert (∀ (stop_ join_ : call unit) e w',
            destructor_body stop_ join_ w0 ≠ Some (Throws e, w')) as Hnothrow.
  { intros stop_ join_ e w'.
    unfold destructor_body, bind at 1, try_block, try_catch_all, thread_destructor.
    destruct (bind stop_ _ w0) as [[[[]|e'| |] w1]|]; try discriminate.
    all: destruct (t_joinable (handle w1)); discriminate. }
  assert (well_formed w0 ∧ calls_of w0 = calls_of w) as [Hw0 Hc0].
  { subst w0. destruct stopped_before; [|done].
    destruct (well_formed_view w Hw) as [v Hv].
    by destruct (stop_view w v Hw Hv). }
  split; [exact Hnothrow|]. split; [intros; apply Hnothrow|].
  split; [intros; by apply try_block_joinable|]. split; [|split].
  - intros e wakes Hj.
    split; [by apply try_block_join_fails|by apply destructor_join_fails].
  - intros fault wakes Hj. by apply destructor_not_joinable.
  - intros wakes Hj Hlen. rewrite (destructor_joins _ _ Hj).
    destruct (well_formed_view w0 Hw0) as [v0 Hv0].
    destruct (stop_draining w0 v0 Hw0 Hv0) as (Hws & vs & Hvs & Hd & Hps & Hcs).
    destruct (run_worker_drains wakes (stop w0) vs Hws Hvs Hd)
      as (w1 & Hrun & Hw1 & Hh1 & Hr1 & Hc1 & Hp1).
    specialize (Hp1 Hlen).
    eexists w1, _. split; [exact Hrun|].
    rewrite Hrun, (decide_True _ _ Hp1).
    split; [reflexivity|]. split; [reflexivity|]. split; [reflexivity|].
    split; [exact Hr1|]. split; [exact Hp1|]. split; [reflexivity|].
    change (calls_of w1 ≤ calls_of w + 1).
    assert (pending (pc_of (stop w0)) ≤ 1)
      by (destruct (pc_of (stop w0)); simpl; lia).
    change (calls_of (stop w0)) with (calls_of w0) in Hc1. lia.
Qed.

Lemma destructor_outcomes_witness :
  pc_of (after timed_wait (test_world 1000 false)) = details.Woken false ∧
  (∀ e w', destructor (Some (system_error 35)) []
             (after timed_wait (test_world 1000 false)) ≠ Some (Throws e, w')) ∧
  destructor (Some (system_error 35)) [] (after timed_wait (test_world 1000 false))
  = Some (Terminated, stop (after timed_wait (test_world 1000 false))) ∧
  ∃ w', destructor None [timeout; timeout; timeout; timeout]
          (after timed_wait (test_world 1000 false)) = Some (Returns tt, w') ∧
    pc_of w' = details.Returned ∧ t_joinable (handle w') = false.
Proof.
  split; [reflexivity|].
  destruct (destructor_outcomes (after timed_wait (test_world 1000 false)) false)
    as (_ & Hno & _ & Hfail & _ & Hret); [evaluate|].
  split; [apply Hno|]. split; [by apply Hfail|].
  destruct (Hret [timeout; timeout; timeout; timeout])
    as (w1 & w' & _ & Hd & _ & _ & _ & Hp & Hj & _);
    [reflexivity | simpl; lia |].
  exists w'. split; [exact Hd|]. split; [exact Hp|exact Hj].
Defined.
